(** * Assignment-Scheduler: a shallow embedding of the slot and role routes

    The backend ([src/backend/src/routes/users.js]) runs each request as a
    short sequence of Supabase queries.  The database is modelled as one
    record of three tables ([users], [user_roles], [slots]) plus a counter
    standing for the fresh UUIDs the store generates; each query is a
    function on that record, and each route handler is state passing over
    it.  The table triggers of [migrations/add_user_roles_table.sql] are
    part of the store operations they are attached to.  Timestamps
    ([created_at], [updated_at], [last_login]) are not modelled. *)

From Stdlib Require Import List String Ascii ZArith Bool Arith Lia.
From Stdlib Require Import Sorted Permutation.
Import ListNotations.
Local Open Scope Z_scope.

(* ------------------------------------------------------------------ *)
(** ** Data model (src/database/schema.sql) *)

Inductive Status := available | booked | cancelled | completed.

Definition status_eqb (a b : Status) : bool :=
  match a, b with
  | available, available | booked, booked
  | cancelled, cancelled | completed, completed => true
  | _, _ => false
  end.

Lemma status_eqb_eq a b : status_eqb a b = true <-> a = b.
Proof. destruct a, b; simpl; split; congruence. Qed.

(** A [slots] row.  Dates are UTC day numbers, [start_time] and [end_time]
    are seconds of the day (the [TIME] column holds ["HH:MM:SS"]). *)
Record Slot := mkSlot {
  slot_id : nat;
  faculty_id : nat;
  scholar_id : option nat;
  date : Z;
  start_time : Z;
  end_time : Z;
  status : Status;
  notes : option string;
  meeting_link : option string
}.

(** A [users] row; [role] is the column checked against
    ['scholar', 'faculty', 'admin']. *)
Record User := mkUser {
  user_id : nat;
  email : string;
  name : string;
  picture : option string;
  google_id : string;
  role : string
}.

(** A [user_roles] row. *)
Record RoleRow := mkRoleRow {
  rr_email : string;
  rr_role : string
}.

Record DB := mkDB {
  users : list User;
  user_roles : list RoleRow;
  slots : list Slot;
  next_id : nat  (** stands for [uuid_generate_v4()] *)
}.

(** [req.user], as set by the authentication middleware from the token. *)
Record AuthUser := mkAuthUser {
  au_id : nat;
  au_email : string;
  au_role : string
}.

(** A handler either answers with a JSON payload or with an HTTP error
    status and the message the code sends. *)
Inductive Outcome (A : Type) :=
  | Ok (a : A)
  | Err (code : nat) (msg : string).
Arguments Ok {A} a.
Arguments Err {A} code msg.


(** PostgREST's [.single()]: exactly one row, otherwise an error
    (PGRST116), which the handlers treat as "no row". *)
Definition single {A} (rows : list A) : option A :=
  match rows with [x] => Some x | _ => None end.

(** JavaScript truthiness of an optional string ([undefined] and [""] are
    falsy). *)
Definition truthy (s : option string) : bool :=
  match s with Some v => negb (String.eqb v "") | None => false end.

Definition with_slots (db : DB) (l : list Slot) : DB :=
  mkDB db.(users) db.(user_roles) l db.(next_id).

(* ------------------------------------------------------------------ *)
(** ** Slot creation: [router.post('/')] *)

Section Clock.

(** The host's UTC offset in milliseconds at a given instant: [toTimeString]
    prints local time. *)
Variable tz_offset : Z -> Z.

(** [new Date(t).toTimeString().split(' ')[0]], as seconds of the day *)
Definition time_only (t : Z) : Z := ((t + tz_offset t) / 1000) mod 86400.

(** [new Date(d).toISOString().split('T')[0]], as a UTC day number *)
Definition date_only (d : Z) : Z := d / 86400000.

(** The [.or(...)] filter of the overlap query, against an existing row. *)
Definition overlap_filter (st et : Z) (s : Slot) : bool :=
  ((s.(start_time) <=? st) && (st <? s.(end_time)))
  || ((s.(start_time) <? et) && (et <=? s.(end_time)))
  || ((st <=? s.(start_time)) && (s.(end_time) <=? et)).

Definition overlap_query (fid : nat) (d st et : Z) (db : DB) : list Slot :=
  filter (fun s => Nat.eqb s.(faculty_id) fid && Z.eqb s.(date) d
                   && overlap_filter st et s) db.(slots).

Definition insert_slot (s : Slot) (db : DB) : DB :=
  mkDB db.(users) db.(user_roles) (db.(slots) ++ [s]) (S db.(next_id)).

(** The handler body after the ISO-8601 validators; [start_in], [end_in]
    and [date_in] are the parsed [Date]s in milliseconds. *)
Definition create_slot (db : DB) (user : AuthUser) (start_in end_in date_in : Z)
  : Outcome Slot * DB :=
  let faculty := user.(au_id) in
  let startTimeOnly := time_only start_in in
  let endTimeOnly := time_only end_in in
  let dateOnly := date_only date_in in
  if end_in <=? start_in then
    (Err 400 "End time must be after start time", db)
  else
    match overlap_query faculty dateOnly startTimeOnly endTimeOnly db with
    | _ :: _ => (Err 409 "Time slot overlaps with existing slot", db)
    | [] =>
        let s := mkSlot db.(next_id) faculty None dateOnly startTimeOnly
                        endTimeOnly available None None in
        (Ok s, insert_slot s db)
    end.

Record CreateReq := mkCreateReq {
  cr_user : AuthUser;
  cr_start : Z;
  cr_end : Z;
  cr_date : Z
}.

(** Creation requests handled one after the other. *)
Fixpoint run_creates (db : DB) (reqs : list CreateReq) : DB :=
  match reqs with
  | [] => db
  | r :: rs =>
      run_creates (snd (create_slot db r.(cr_user) r.(cr_start) r.(cr_end)
                                      r.(cr_date))) rs
  end.

End Clock.

(* ------------------------------------------------------------------ *)
(** ** Slot listing: [router.get('/available')] *)

(** [.order('date').order('start_time')]: rows sorted on [(date, start_time)];
    the store's order among equal keys is unspecified, an insertion sort
    keeping table order stands for it. *)
Definition key_le (a b : Slot) : bool :=
  (a.(date) <? b.(date)) || ((a.(date) =? b.(date)) && (a.(start_time) <=? b.(start_time))).

Fixpoint insert_by_key (s : Slot) (l : list Slot) : list Slot :=
  match l with
  | [] => [s]
  | x :: xs => if key_le s x then s :: x :: xs else x :: insert_by_key s xs
  end.

Fixpoint sort_by_key (l : list Slot) : list Slot :=
  match l with
  | [] => []
  | x :: xs => insert_by_key x (sort_by_key xs)
  end.

(** [now] is [Date.now()]; [faculty_q] and [date_q] are the query
    parameters, [None] when absent. *)
Definition list_available (db : DB) (now : Z) (faculty_q : option nat)
  (date_q : option Z) : list Slot :=
  let today := date_only now in
  let q := filter (fun s => status_eqb s.(status) available && (today <=? s.(date)))
                  db.(slots) in
  let q := match faculty_q with
           | Some f => filter (fun s => Nat.eqb s.(faculty_id) f) q
           | None => q
           end in
  let q := match date_q with
           | Some d => filter (fun s => Z.eqb s.(date) d) q
           | None => q
           end in
  sort_by_key q.

(* ------------------------------------------------------------------ *)
(** ** Slot deletion: [router.delete('/:slotId')] *)

Definition delete_slot (db : DB) (user : AuthUser) (sid : nat) : Outcome unit * DB :=
  match single (filter (fun s => Nat.eqb s.(slot_id) sid
                                 && Nat.eqb s.(faculty_id) user.(au_id)) db.(slots)) with
  | None => (Err 404 "Slot not found", db)
  | Some s =>
      if status_eqb s.(status) booked then (Err 403 "Cannot delete booked slot", db)
      else (Ok tt, with_slots db (filter (fun x => negb (Nat.eqb x.(slot_id) sid)) db.(slots)))
  end.

(* ------------------------------------------------------------------ *)
(** ** Meeting link: [createRealGoogleMeet] and [generateFallbackMeetLink] *)

Definition chars : string := "abcdefghijklmnopqrstuvwxyz".

(** The double nearest an integer [n >= 0] (to nearest, ties to even),
    for [n] up to [2^1024]: [n] keeps its top 53 significant bits. *)
Definition round53 (n : Z) : Z :=
  if n <? 2 ^ 53 then n
  else
    let e := Z.log2 n - 52 in
    let q := n / 2 ^ e in
    let rm := n mod 2 ^ e in
    if (2 ^ (e - 1) <? rm) || ((rm =? 2 ^ (e - 1)) && Z.odd q) then (q + 1) * 2 ^ e
    else q * 2 ^ e.

(** [Math.floor(Math.random() * chars.length)], with the [k]-th result of
    [Math.random()] the double [m / 2^53] for a 53-bit integer [m] (exact).
    The product [m / 2^53 * 26] is the exact [26 m / 2^53] rounded to a
    double; since the scaling by [2^53] is exact, that is [round53 (26 m)]
    divided by [2^53], and [Math.floor] takes its integer part. *)
Definition random_index (m : Z) : nat :=
  Z.to_nat (round53 (m * Z.of_nat (String.length chars)) / 2 ^ 53).

(** [chars[i]] converted to a string: out of range JavaScript yields
    [undefined]. *)
Definition char_at (s : string) (i : nat) : string :=
  match String.get i s with
  | Some c => String c EmptyString
  | None => "undefined"
  end.

(** The inner loop: [len] characters, drawing [rnd k], [rnd (k+1)], ... *)
Fixpoint build_segment (rnd : nat -> Z) (k len : nat) : string :=
  match len with
  | O => EmptyString
  | S l => (char_at chars (random_index (rnd k)) ++ build_segment rnd (S k) l)%string
  end.

(** The outer loop from iteration [i], [n] iterations left; the draws
    continue at [k]. *)
Fixpoint segments_from (rnd : nat -> Z) (k i n : nat) : list string :=
  match n with
  | O => []
  | S n' =>
      let len := if Nat.eqb i 1 then 4%nat else 3%nat in
      build_segment rnd k len :: segments_from rnd (k + len) (S i) n'
  end.

Definition generateFallbackMeetLink (rnd : nat -> Z) : string :=
  ("https://meet.google.com/" ++ String.concat "-" (segments_from rnd 0 0 3))%string.

(** What [createCalendarEventWithMeet] does for this call: it throws, or
    returns [meetLink] ([hangoutLink] or the first entry point, possibly
    [undefined]). *)
Inductive Provision :=
  | ProvisionOk (meetLink : option string)
  | ProvisionFail.

(** Any exception inside the [try] (including an invalid [Date] in
    [toISOString]) is a [ProvisionFail]. *)
Definition createRealGoogleMeet (prov : Provision) (rnd : nat -> Z) : option string :=
  match prov with
  | ProvisionOk l => l
  | ProvisionFail => Some (generateFallbackMeetLink rnd)
  end.

(* ------------------------------------------------------------------ *)
(** ** Booking: [router.post('/:slotId/book')] *)

(** The first query: [.eq('id', slotId).eq('status', 'available').single()] *)
Definition fetch_available (db : DB) (sid : nat) : option Slot :=
  single (filter (fun s => Nat.eqb s.(slot_id) sid && status_eqb s.(status) available)
                 db.(slots)).

(** [notes || null] *)
Definition notes_or_null (n : option string) : option string :=
  if truthy n then n else None.

(** The update payload; a [meeting_link] of [undefined] is dropped from the
    JSON body, so the column keeps its value. *)
Definition booked_row (scholar : nat) (n : option string) (link : option string)
  (s : Slot) : Slot :=
  mkSlot s.(slot_id) s.(faculty_id) (Some scholar) s.(date) s.(start_time)
         s.(end_time) booked (notes_or_null n)
         (match link with Some l => Some l | None => s.(meeting_link) end).

(** The second query: [.update({...}).eq('id', slotId)] — every row with that
    id, whatever its status. *)
Definition update_booked (db : DB) (sid scholar : nat) (n : option string)
  (link : option string) : DB :=
  with_slots db (map (fun s => if Nat.eqb s.(slot_id) sid then booked_row scholar n link s
                               else s) db.(slots)).

(** The third query: the re-fetch by id. *)
Definition fetch_by_id (db : DB) (sid : nat) : option Slot :=
  single (filter (fun s => Nat.eqb s.(slot_id) sid) db.(slots)).

Record BookResp := mkBookResp {
  br_slot : Slot;
  br_meetingLink : option string
}.

Record BookReq := mkBookReq {
  bk_user : AuthUser;
  bk_slot : nat;
  bk_notes : option string;
  bk_prov : Provision;
  bk_rnd : nat -> Z
}.

(** The handler run without interleaving. *)
Definition book_slot (db : DB) (r : BookReq) : Outcome BookResp * DB :=
  match fetch_available db r.(bk_slot) with
  | None => (Err 404 "Slot not available", db)
  | Some _ =>
      let link := createRealGoogleMeet r.(bk_prov) r.(bk_rnd) in
      let db' := update_booked db r.(bk_slot) r.(bk_user).(au_id) r.(bk_notes) link in
      match fetch_by_id db' r.(bk_slot) with
      | None => (Err 500 "Failed to book slot", db')
      | Some b => (Ok (mkBookResp b link), db')
      end
  end.

(** *** Concurrent booking requests

    Each request awaits the store between its queries, and nothing else
    serialises requests: a request is a thread whose atomic steps are its
    three queries (the provisioning call happens between the first two). *)
Inductive BookPC :=
  | BStart
  | BFetched (link : option string)
  | BUpdated (link : option string)
  | BDone (o : Outcome BookResp).

Definition book_step (db : DB) (r : BookReq) (pc : BookPC) : DB * BookPC :=
  match pc with
  | BStart =>
      match fetch_available db r.(bk_slot) with
      | None => (db, BDone (Err 404 "Slot not available"))
      | Some _ => (db, BFetched (createRealGoogleMeet r.(bk_prov) r.(bk_rnd)))
      end
  | BFetched link =>
      (update_booked db r.(bk_slot) r.(bk_user).(au_id) r.(bk_notes) link, BUpdated link)
  | BUpdated link =>
      match fetch_by_id db r.(bk_slot) with
      | None => (db, BDone (Err 500 "Failed to book slot"))
      | Some b => (db, BDone (Ok (mkBookResp b link)))
      end
  | BDone o => (db, BDone o)
  end.

Fixpoint nth_update {A} (n : nat) (f : A -> A) (l : list A) : list A :=
  match l, n with
  | [], _ => []
  | x :: xs, O => f x :: xs
  | x :: xs, S n' => x :: nth_update n' f xs
  end.

(** One scheduler choice: thread [i] takes its next step. *)
Definition sched_step (reqs : list BookReq) (cfg : DB * list BookPC) (i : nat)
  : DB * list BookPC :=
  let (db, pcs) := cfg in
  match nth_error reqs i, nth_error pcs i with
  | Some r, Some pc =>
      let (db', pc') := book_step db r pc in
      (db', nth_update i (fun _ => pc') pcs)
  | _, _ => cfg
  end.

Definition run_sched (reqs : list BookReq) (db : DB) (sched : list nat)
  : DB * list BookPC :=
  fold_left (sched_step reqs) sched (db, map (fun _ => BStart) reqs).

Definition succeeded (pc : BookPC) : bool :=
  match pc with BDone (Ok _) => true | _ => false end.

Definition unavailable (pc : BookPC) : bool :=
  match pc with BDone (Err 404 _) => true | _ => false end.

(* ------------------------------------------------------------------ *)
(** ** Role store operations and their triggers *)

Definition emails_eqb := String.eqb.

Definition set_role_of_email (e r : string) (us : list User) : list User :=
  map (fun u => if emails_eqb u.(email) e
                then mkUser u.(user_id) u.(email) u.(name) u.(picture) u.(google_id) r
                else u) us.

(** [sync_user_role] (AFTER INSERT OR UPDATE OF role ON user_roles):
    [UPDATE users SET role = NEW.role WHERE email = NEW.email].  The
    [sync_role_to_user_roles] it fires in turn upserts the same pair again,
    which changes nothing more. *)
Definition sync_user_role (e r : string) (db : DB) : DB :=
  mkDB (set_role_of_email e r db.(users)) db.(user_roles) db.(slots) db.(next_id).

(** [.from('user_roles').upsert({email, role}, {onConflict: 'email'})] *)
Definition ur_upsert (e r : string) (db : DB) : DB :=
  let rows :=
    if existsb (fun x => emails_eqb x.(rr_email) e) db.(user_roles)
    then map (fun x => if emails_eqb x.(rr_email) e then mkRoleRow e r else x) db.(user_roles)
    else db.(user_roles) ++ [mkRoleRow e r] in
  sync_user_role e r (mkDB db.(users) rows db.(slots) db.(next_id)).

(** [.from('user_roles').insert([{email, role}])]: a unique violation on
    [email] is an error, which the login handler ignores. *)
Definition ur_insert (e r : string) (db : DB) : DB :=
  if existsb (fun x => emails_eqb x.(rr_email) e) db.(user_roles) then db
  else sync_user_role e r (mkDB db.(users) (db.(user_roles) ++ [mkRoleRow e r])
                                db.(slots) db.(next_id)).

(** [sync_role_to_user_roles] (AFTER UPDATE OF role ON users), for each
    updated row whose role changed: upsert [(NEW.email, NEW.role)]. *)
Fixpoint sync_role_to_user_roles (changed : list User) (db : DB) : DB :=
  match changed with
  | [] => db
  | u :: us => sync_role_to_user_roles us (ur_upsert u.(email) u.(role) db)
  end.

(** [.from('users').update(f).eq(col, v)] on the rows selected by [p]; the
    trigger runs for the rows whose role changed.  ([prevent_self_role_change]
    tests [OLD.id = auth.uid()], which is [NULL] under the service-role key
    the backend uses, so it never fires.) *)
Definition users_update (p : User -> bool) (f : User -> User) (db : DB) : DB :=
  let changed := filter (fun u => p u && negb (String.eqb (f u).(role) u.(role))) db.(users) in
  let db1 := mkDB (map (fun u => if p u then f u else u) db.(users))
                  db.(user_roles) db.(slots) db.(next_id) in
  sync_role_to_user_roles (map f changed) db1.

Definition with_role (r : string) (u : User) : User :=
  mkUser u.(user_id) u.(email) u.(name) u.(picture) u.(google_id) r.

Definition valid_role (r : string) : bool :=
  existsb (String.eqb r) ["scholar"; "faculty"; "admin"]%string.

(** Modelled from the spec: [requireRole] of [middleware/auth.js], which is
    not in the sources: "passes if the identity's current role is in the
    required set, else fails with Forbidden". *)
Definition requireRole {A} (roles : list string) (user : AuthUser)
  (k : unit -> Outcome A * DB) (db : DB) : Outcome A * DB :=
  if existsb (String.eqb user.(au_role)) roles then k tt
  else (Err 403 "Insufficient permissions", db).

(* ------------------------------------------------------------------ *)
(** ** [router.patch('/:userId/role')] *)

Definition patch_role_handler (db : DB) (user : AuthUser) (userId : nat) (r : string)
  : Outcome User * DB :=
  if negb (valid_role r) then (Err 400 "Invalid role", db)
  else if Nat.eqb userId user.(au_id) then (Err 403 "Cannot change your own role", db)
  else
    match single (filter (fun u => Nat.eqb u.(user_id) userId) db.(users)) with
    | None => (Err 404 "User not found", db)
    | Some target =>
        let db1 := ur_upsert target.(email) r db in
        let db2 := users_update (fun u => Nat.eqb u.(user_id) userId) (with_role r) db1 in
        match single (filter (fun u => Nat.eqb u.(user_id) userId) db2.(users)) with
        | None => (Err 500 "Failed to update user role", db2)
        | Some u => (Ok u, db2)
        end
    end.

Definition patch_role (db : DB) (user : AuthUser) (userId : nat) (r : string)
  : Outcome User * DB :=
  requireRole ["admin"%string] user (fun _ => patch_role_handler db user userId r) db.

(* ------------------------------------------------------------------ *)
(** ** [router.post('/roles/email')] *)

(** [email] and [role] of the body, [None] when absent. *)
Definition set_role_by_email_handler (db : DB) (user : AuthUser)
  (e r : option string) : Outcome RoleRow * DB :=
  match e, r with
  | Some e, Some r =>
      if negb (truthy (Some e)) || negb (truthy (Some r))
      then (Err 400 "Email and role are required", db)
      else if negb (valid_role r) then (Err 400 "Invalid role", db)
      else if String.eqb e user.(au_email) then (Err 403 "Cannot change your own role", db)
      else
        let db1 := ur_upsert e r db in
        let db2 :=
          match single (filter (fun u => emails_eqb u.(email) e) db1.(users)) with
          | Some _ => users_update (fun u => emails_eqb u.(email) e) (with_role r) db1
          | None => db1
          end in
        (Ok (mkRoleRow e r), db2)
  | _, _ => (Err 400 "Email and role are required", db)
  end.

Definition set_role_by_email (db : DB) (user : AuthUser) (e r : option string)
  : Outcome RoleRow * DB :=
  requireRole ["admin"%string] user (fun _ => set_role_by_email_handler db user e r) db.

(* ------------------------------------------------------------------ *)
(** ** Login: [router.post('/google')] (auth routes, same file) *)

(** The verified token payload. *)
Record GooglePayload := mkGooglePayload {
  gp_email : string;
  gp_name : string;
  gp_picture : option string;
  gp_sub : string
}.

(** [.from('users').insert([...]).select().single()]: [email] and
    [google_id] are [UNIQUE]. *)
Definition users_insert (u : User) (db : DB) : option DB :=
  if existsb (fun x => emails_eqb x.(email) u.(email) || String.eqb x.(google_id) u.(google_id))
             db.(users)
  then None
  else Some (mkDB (db.(users) ++ [u]) db.(user_roles) db.(slots) db.(next_id)).

(** The [.update({name, picture, google_id, role, ...})] of a returning
    user; a [picture] of [undefined] is dropped from the JSON body, so the
    column keeps its value. *)
Definition refresh_profile (p : GooglePayload) (r : string) (u : User) : User :=
  mkUser u.(user_id) u.(email) p.(gp_name)
         (match p.(gp_picture) with Some pic => Some pic | None => u.(picture) end)
         p.(gp_sub) r.

(** The same update violates [google_id UNIQUE] when another row holds the
    token's [sub]: the statement is rolled back and the handler throws. *)
Definition google_id_taken (p : GooglePayload) (u : User) (us : list User) : bool :=
  existsb (fun x => negb (Nat.eqb x.(user_id) u.(user_id)) && String.eqb x.(google_id) p.(gp_sub))
          us.

Definition auth_google (db : DB) (p : GooglePayload) : Outcome User * DB :=
  let e := p.(gp_email) in
  let '(userRole, db1) :=
    match single (filter (fun x => emails_eqb x.(rr_email) e) db.(user_roles)) with
    | Some rd => (rd.(rr_role), db)
    | None => ("scholar"%string, ur_insert e "scholar" db)
    end in
  match single (filter (fun u => emails_eqb u.(email) e) db1.(users)) with
  | None =>
      let nu := mkUser db1.(next_id) e p.(gp_name) p.(gp_picture) p.(gp_sub) userRole in
      match users_insert nu (mkDB db1.(users) db1.(user_roles) db1.(slots) (S db1.(next_id))) with
      | None => (Err 500 "Authentication failed", db1)
      | Some db2 => (Ok nu, db2)
      end
  | Some u =>
      if google_id_taken p u db1.(users) then (Err 500 "Authentication failed", db1)
      else
      let db2 := users_update (fun x => Nat.eqb x.(user_id) u.(user_id))
                              (refresh_profile p userRole) db1 in
      match single (filter (fun x => Nat.eqb x.(user_id) u.(user_id)) db2.(users)) with
      | None => (Err 500 "Authentication failed", db2)
      | Some u' => (Ok u', db2)
      end
  end.

(* ------------------------------------------------------------------ *)
(** ** [router.get('/my-bookings')] and [router.get('/my-slots')] *)

(** [.eq('scholar_id', req.user.id).order('date').order('start_time')] *)
Definition my_bookings (db : DB) (user : AuthUser) : list Slot :=
  sort_by_key (filter (fun s => match s.(scholar_id) with
                                | Some k => Nat.eqb k user.(au_id)
                                | None => false
                                end) db.(slots)).

(** [.eq('faculty_id', req.user.id).order('date').order('start_time')] *)
Definition my_slots (db : DB) (user : AuthUser) : list Slot :=
  sort_by_key (filter (fun s => Nat.eqb s.(faculty_id) user.(au_id)) db.(slots)).

(* ------------------------------------------------------------------ *)
(** ** Slot operations in sequence *)

Inductive SlotOp :=
  | OpCreate (user : AuthUser) (start_in end_in date_in : Z)
  | OpBook (r : BookReq)
  | OpDelete (user : AuthUser) (sid : nat).

Definition apply_slot_op (tz : Z -> Z) (db : DB) (op : SlotOp) : DB :=
  match op with
  | OpCreate u st et d => snd (create_slot tz db u st et d)
  | OpBook r => snd (book_slot db r)
  | OpDelete u sid => snd (delete_slot db u sid)
  end.

Definition run_slot_ops (tz : Z -> Z) (db : DB) (ops : list SlotOp) : DB :=
  fold_left (apply_slot_op tz) ops db.

(* ------------------------------------------------------------------ *)
(** ** [get_user_role] and [set_user_role] (migrations/add_user_roles_table.sql) *)

(** [SELECT role INTO user_role FROM user_roles WHERE email = user_email]
    keeps the first row; no row gives ['scholar']. *)
Definition get_user_role (db : DB) (e : string) : string :=
  match filter (fun x => emails_eqb x.(rr_email) e) db.(user_roles) with
  | x :: _ => x.(rr_role)
  | [] => "scholar"%string
  end.

(** [INSERT ... ON CONFLICT (email) DO UPDATE SET role = new_role]; the
    [CHECK (role IN ('scholar', 'faculty', 'admin'))] of the column rejects
    any other role ([None]). *)
Definition set_user_role (e r : string) (db : DB) : option DB :=
  if valid_role r then Some (ur_upsert e r db) else None.

(* ------------------------------------------------------------------ *)
(** ** [groupSlotsByDate] (frontend/src/pages/AvailableSlots.jsx) *)

(** The object [grouped] as its entries in insertion order ([Object.entries]
    order: date strings are not array indices). *)
Fixpoint push_grouped (d : Z) (s : Slot) (g : list (Z * list Slot)) : list (Z * list Slot) :=
  match g with
  | [] => [(d, [s])]
  | (k, l) :: g' => if Z.eqb k d then (k, l ++ [s]) :: g' else (k, l) :: push_grouped d s g'
  end.

Definition groupSlotsByDate (l : list Slot) : list (Z * list Slot) :=
  fold_left (fun g s => push_grouped s.(date) s g) l [].

Fixpoint group_lookup (d : Z) (g : list (Z * list Slot)) : option (list Slot) :=
  match g with
  | [] => None
  | (k, l) :: g' => if Z.eqb k d then Some l else group_lookup d g'
  end.

(* ================================================================== *)
(** * Properties *)

(** ** Common list facts *)

Lemma filter_none {A} (f : A -> bool) (l : list A) :
  (forall x, In x l -> f x = false) -> filter f l = [].
Proof.
  induction l as [|x l IH]; intros H; simpl; [reflexivity|].
  rewrite (H x (or_introl eq_refl)). apply IH. intros y Hy. apply H. now right.
Qed.

Lemma filter_some {A} (f : A -> bool) (l : list A) :
  filter f l = [] -> forall x, In x l -> f x = false.
Proof.
  intros H x Hx. destruct (f x) eqn:E; [|reflexivity].
  assert (In x (filter f l)) by (apply filter_In; auto).
  rewrite H in *. contradiction.
Qed.

Lemma filter_and {A} (f g : A -> bool) (l : list A) :
  filter f (filter g l) = filter (fun x => g x && f x) l.
Proof.
  induction l as [|x l IH]; simpl; [reflexivity|].
  destruct (g x); simpl; [destruct (f x); simpl|]; rewrite IH; reflexivity.
Qed.

#[local] Hint Resolve filter_none : core.

(** ** Booking an unavailable slot *)

Lemma book_slot_none (db : DB) (r : BookReq) :
  (forall s, In s db.(slots) -> s.(slot_id) = r.(bk_slot) -> s.(status) <> available) ->
  book_slot db r = (Err 404 "Slot not available", db).
Proof.
  intros H. unfold book_slot, fetch_available.
  rewrite filter_none; [reflexivity|].
  intros s Hs. destruct (Nat.eqb_spec s.(slot_id) r.(bk_slot)) as [E|E]; [|reflexivity].
  simpl. destruct (status_eqb (status s) available) eqn:St; [|reflexivity].
  apply status_eqb_eq in St. exfalso. exact (H s Hs E St).
Qed.

(** C2: booking a slot id for which no [available] slot with that id exists
    (it is missing, [booked], [cancelled] or [completed]) fails with 404
    "Slot not available" and leaves the whole database unchanged. *)
Theorem book_unavailable_no_mutation (db : DB) (r : BookReq) :
  (forall s, In s db.(slots) -> s.(slot_id) = r.(bk_slot) -> s.(status) <> available) ->
  book_slot db r = (Err 404 "Slot not available", db).
Proof. apply book_slot_none. Qed.

Definition sample_slot (id fac : nat) (st : Status) : Slot :=
  mkSlot id fac None 20000 32400 36000 st None None.

Definition sample_db (l : list Slot) : DB := mkDB [] [] l 10.

Definition sample_req (scholar sid : nat) (prov : Provision) : BookReq :=
  mkBookReq (mkAuthUser scholar "s@x.com" "scholar") sid None prov (fun _ => 0).

Lemma book_unavailable_no_mutation_witness :
  book_slot (sample_db [sample_slot 1 7 booked]) (sample_req 3 1 ProvisionFail)
  = (Err 404 "Slot not available", sample_db [sample_slot 1 7 booked]).
Proof.
  apply book_unavailable_no_mutation.
  intros s [<-|[]] _. simpl. discriminate.
Defined.

(** ** Slot creation *)

(** C4: creation first rejects [end_time <= start_time] (400) without looking
    at the stored slots; otherwise it answers 409 exactly when some stored
    slot of the same faculty and date, whatever its status, satisfies the
    three-way overlap test against the new slot's times of day; otherwise it
    inserts the new slot with status [available]. *)
Theorem create_slot_validation_order (tz : Z -> Z) (db : DB) (user : AuthUser)
  (st et d : Z) :
  let st' := time_only tz st in
  let et' := time_only tz et in
  (et <= st ->
     create_slot tz db user st et d = (Err 400 "End time must be after start time", db)) /\
  (st < et ->
     ((exists m, fst (create_slot tz db user st et d) = Err 409 m) <->
      exists s, In s db.(slots) /\ s.(faculty_id) = user.(au_id)
                /\ s.(date) = date_only d
                /\ ((s.(start_time) <= st' /\ st' < s.(end_time))
                    \/ (s.(start_time) < et' /\ et' <= s.(end_time))
                    \/ (st' <= s.(start_time) /\ s.(end_time) <= et')))) /\
  (st < et ->
     (forall s, In s db.(slots) -> s.(faculty_id) = user.(au_id) -> s.(date) = date_only d ->
        ~ ((s.(start_time) <= st' /\ st' < s.(end_time))
           \/ (s.(start_time) < et' /\ et' <= s.(end_time))
           \/ (st' <= s.(start_time) /\ s.(end_time) <= et'))) ->
     exists s, create_slot tz db user st et d = (Ok s, insert_slot s db)
               /\ s.(status) = available /\ s.(faculty_id) = user.(au_id)
               /\ s.(date) = date_only d /\ s.(start_time) = st' /\ s.(end_time) = et').
Proof.
  cbv zeta. unfold create_slot.
  set (st' := time_only tz st). set (et' := time_only tz et). cbv zeta.
  assert (Hq : forall s, In s (overlap_query (au_id user) (date_only d) st' et' db) <->
     In s db.(slots) /\ s.(faculty_id) = user.(au_id) /\ s.(date) = date_only d
     /\ ((s.(start_time) <= st' /\ st' < s.(end_time))
         \/ (s.(start_time) < et' /\ et' <= s.(end_time))
         \/ (st' <= s.(start_time) /\ s.(end_time) <= et'))).
  { intros s. unfold overlap_query, overlap_filter. rewrite filter_In.
    rewrite !Bool.andb_true_iff, !Bool.orb_true_iff, !Bool.andb_true_iff,
            Nat.eqb_eq, Z.eqb_eq, !Z.leb_le, !Z.ltb_lt. tauto. }
  split; [|split].
  - intros H. apply Z.leb_le in H. rewrite H. reflexivity.
  - intros H. assert (H' : (et <=? st) = false) by (apply Z.leb_gt; lia). rewrite H'.
    split.
    + intros [m Hm]. revert Hm.
      destruct (overlap_query (au_id user) (date_only d) st' et' db) as [|s l] eqn:E; [discriminate|intros _].
      exists s. apply Hq. now left.
    + intros [s Hs]. apply Hq in Hs.
      destruct (overlap_query (au_id user) (date_only d) st' et' db) as [|s' l] eqn:E; [contradiction|].
      eexists. reflexivity.
  - intros H Hno. assert (H' : (et <=? st) = false) by (apply Z.leb_gt; lia). rewrite H'.
    destruct (overlap_query (au_id user) (date_only d) st' et' db) as [|s l] eqn:E.
    + eexists. split; [reflexivity|]. simpl. repeat split; reflexivity.
    + exfalso. assert (Hin : In s (s :: l)) by now left.
      apply Hq in Hin. destruct Hin as (Hs & Hf & Hd & Ho). exact (Hno s Hs Hf Hd Ho).
Qed.

Lemma create_slot_validation_order_witness :
  create_slot (fun _ => 0) (sample_db []) (mkAuthUser 7 "f@x.com" "faculty")
              36000000 32400000 0
  = (Err 400 "End time must be after start time", sample_db []).
Proof.
  apply (proj1 (create_slot_validation_order (fun _ => 0) (sample_db [])
                  (mkAuthUser 7 "f@x.com" "faculty") 36000000 32400000 0)).
  lia.
Defined.

(** ** Slot deletion *)

Definition owned_row (sid : nat) (user : AuthUser) (s : Slot) : bool :=
  Nat.eqb s.(slot_id) sid && Nat.eqb s.(faculty_id) user.(au_id).

(** C5, as stated, fails: the owning faculty deletes a [cancelled] slot. *)
Lemma delete_slot_cancelled_succeeds :
  fst (delete_slot (sample_db [sample_slot 1 7 cancelled]) (mkAuthUser 7 "f@x.com" "faculty") 1)
  = Ok tt.
Proof. reflexivity. Qed.

(** C5 (amended): deletion fails 404 "Slot not found" when no slot has that
    id and the caller as faculty (also when the slot exists but belongs to
    someone else), fails 403 when the matching slot is [booked], and
    otherwise (status [available], [cancelled] or [completed]) removes it;
    the failures change nothing. *)
Theorem delete_slot_outcomes (db : DB) (user : AuthUser) (sid : nat) :
  ((forall s, In s db.(slots) -> s.(slot_id) = sid -> s.(faculty_id) <> user.(au_id)) ->
     delete_slot db user sid = (Err 404 "Slot not found", db)) /\
  (forall s, filter (owned_row sid user) db.(slots) = [s] -> s.(status) = booked ->
     delete_slot db user sid = (Err 403 "Cannot delete booked slot", db)) /\
  (forall s, filter (owned_row sid user) db.(slots) = [s] -> s.(status) <> booked ->
     delete_slot db user sid
     = (Ok tt, with_slots db (filter (fun x => negb (Nat.eqb x.(slot_id) sid)) db.(slots)))).
Proof.
  unfold delete_slot. fold (owned_row sid user). split; [|split].
  - intros H. rewrite filter_none; [reflexivity|].
    intros s Hs. unfold owned_row.
    destruct (Nat.eqb_spec s.(slot_id) sid) as [E|E]; [|reflexivity].
    simpl. apply Nat.eqb_neq. exact (H s Hs E).
  - intros s E B. rewrite E. simpl. rewrite B. reflexivity.
  - intros s E B. rewrite E. simpl.
    destruct (status_eqb (status s) booked) eqn:St; [|reflexivity].
    apply status_eqb_eq in St. contradiction.
Qed.

Lemma delete_slot_outcomes_witness :
  delete_slot (sample_db [sample_slot 1 7 booked]) (mkAuthUser 8 "g@x.com" "faculty") 1
  = (Err 404 "Slot not found", sample_db [sample_slot 1 7 booked]) /\
  delete_slot (sample_db [sample_slot 1 7 booked]) (mkAuthUser 7 "f@x.com" "faculty") 1
  = (Err 403 "Cannot delete booked slot", sample_db [sample_slot 1 7 booked]).
Proof.
  split.
  - apply (proj1 (delete_slot_outcomes _ _ _)).
    intros s [<-|[]] _. simpl. discriminate.
  - apply (proj1 (proj2 (delete_slot_outcomes (sample_db [sample_slot 1 7 booked])
                           (mkAuthUser 7 "f@x.com" "faculty") 1)) (sample_slot 1 7 booked));
    reflexivity.
Defined.

(** ** Listing available slots *)

Lemma key_le_total a b : key_le a b = false -> key_le b a = true.
Proof.
  unfold key_le. rewrite !Bool.orb_false_iff, !Bool.andb_false_iff.
  rewrite Bool.orb_true_iff, Bool.andb_true_iff, Z.ltb_lt, Z.ltb_ge, Z.eqb_eq, Z.eqb_neq,
          Z.leb_le, Z.leb_gt.
  intros [H1 [H2|H2]]; lia.
Qed.

Definition key_rel (a b : Slot) : Prop := key_le a b = true.

Lemma insert_by_key_perm s l : Permutation (insert_by_key s l) (s :: l).
Proof.
  induction l as [|x l IH]; simpl; [reflexivity|].
  destruct (key_le s x); [reflexivity|].
  eapply perm_trans; [apply perm_skip, IH|]. apply perm_swap.
Qed.

Lemma sort_by_key_perm l : Permutation (sort_by_key l) l.
Proof.
  induction l as [|x l IH]; simpl; [reflexivity|].
  eapply perm_trans; [apply insert_by_key_perm|]. now apply perm_skip.
Qed.

Lemma insert_by_key_sorted s l :
  Sorted key_rel l -> Sorted key_rel (insert_by_key s l).
Proof.
  induction 1 as [|x l Hs IH Hd]; simpl.
  - repeat constructor.
  - destruct (key_le s x) eqn:E.
    + constructor; [constructor; auto|]. constructor. exact E.
    + constructor; [exact IH|].
      destruct l as [|y l]; simpl.
      * constructor. apply key_le_total, E.
      * destruct (key_le s y); constructor; [apply key_le_total, E|].
        inversion Hd; assumption.
Qed.

Lemma sorted_weaken {A} (R R' : A -> A -> Prop) (l : list A) :
  (forall a b, R a b -> R' a b) -> Sorted R l -> Sorted R' l.
Proof.
  intros H. induction 1 as [|x l Hs IH Hd]; constructor; [exact IH|].
  destruct Hd; constructor. now apply H.
Qed.

Lemma sort_by_key_sorted l : Sorted key_rel (sort_by_key l).
Proof. induction l; simpl; [constructor|]. now apply insert_by_key_sorted. Qed.

(** C10: the listing returns (as a permutation, so with multiplicity) the
    stored slots with status [available] and a date not before today's UTC
    date, narrowed to the faculty and the date when these parameters are
    given, ordered by date and then by start time. *)
Theorem list_available_spec (db : DB) (now : Z) (fq : option nat) (dq : option Z) :
  let keep s := status_eqb s.(status) available && (date_only now <=? s.(date))
                && (match fq with Some f => Nat.eqb s.(faculty_id) f | None => true end)
                && (match dq with Some d => Z.eqb s.(date) d | None => true end) in
  Permutation (list_available db now fq dq) (filter keep db.(slots)) /\
  (forall s, In s (list_available db now fq dq) <->
     In s db.(slots) /\ s.(status) = available /\ date_only now <= s.(date)
     /\ (forall f, fq = Some f -> s.(faculty_id) = f)
     /\ (forall d, dq = Some d -> s.(date) = d)) /\
  Sorted (fun a b => a.(date) < b.(date)
                     \/ (a.(date) = b.(date) /\ a.(start_time) <= b.(start_time)))
         (list_available db now fq dq).
Proof.
  intros keep.
  assert (HP : Permutation (list_available db now fq dq) (filter keep db.(slots))).
  { unfold list_available. eapply perm_trans; [apply sort_by_key_perm|].
    unfold keep. destruct fq as [f|], dq as [d|]; rewrite ?filter_and;
      apply Permutation_refl'; apply filter_ext; intros s;
      rewrite ?Bool.andb_true_r, ?Bool.andb_assoc; reflexivity. }
  split; [exact HP|split].
  - intros s. split.
    + intros H. apply (Permutation_in _ HP), filter_In in H. destruct H as [Hin Hk].
      unfold keep in Hk. rewrite !Bool.andb_true_iff, Z.leb_le, status_eqb_eq in Hk.
      destruct Hk as [[[Ha Hd] Hf] Hq].
      repeat split; try assumption.
      * intros f ->. now apply Nat.eqb_eq.
      * intros d ->. now apply Z.eqb_eq.
    + intros (Hin & Ha & Hd & Hf & Hq). apply (Permutation_in _ (Permutation_sym HP)).
      apply filter_In. split; [exact Hin|]. unfold keep.
      rewrite Ha, (proj2 (Z.leb_le _ _) Hd). simpl.
      destruct fq as [f|], dq as [d|]; simpl;
        rewrite ?(proj2 (Nat.eqb_eq _ _) (Hf _ eq_refl)),
                ?(proj2 (Z.eqb_eq _ _) (Hq _ eq_refl)); reflexivity.
  - unfold list_available.
    eapply sorted_weaken; [|apply sort_by_key_sorted].
    intros a b. unfold key_rel, key_le.
    rewrite Bool.orb_true_iff, Bool.andb_true_iff, Z.ltb_lt, Z.eqb_eq, Z.leb_le. tauto.
Qed.

(** ** Overlap-free creation *)

Definition same_owner_day (a b : Slot) : Prop :=
  a.(faculty_id) = b.(faculty_id) /\ a.(date) = b.(date).

(** The half-open intervals [[start_time, end_time)] share no instant. *)
Definition disjoint_intervals (a b : Slot) : Prop :=
  forall t, ~ ((a.(start_time) <= t < a.(end_time)) /\ (b.(start_time) <= t < b.(end_time))).

(** Every two rows at different positions of the table, of the same faculty
    and date, have disjoint intervals. *)
Definition slots_disjoint (l : list Slot) : Prop :=
  ForallOrdPairs (fun a b => same_owner_day a b -> disjoint_intervals a b) l.

Lemma overlap_filter_false_disjoint (st et : Z) (x s : Slot) :
  s.(start_time) = st -> s.(end_time) = et ->
  overlap_filter st et x = false -> disjoint_intervals x s.
Proof.
  intros Hs He H t [Hx Ht]. rewrite Hs, He in Ht. unfold overlap_filter in H.
  rewrite !Bool.orb_false_iff, !Bool.andb_false_iff, !Z.leb_gt, !Z.ltb_ge in H.
  lia.
Qed.

Lemma ForallOrdPairs_snoc {A} (R : A -> A -> Prop) (l : list A) (s : A) :
  ForallOrdPairs R l -> (forall x, In x l -> R x s) -> ForallOrdPairs R (l ++ [s]).
Proof.
  induction 1 as [|a l Ha Hl IH]; intros H; simpl.
  - repeat constructor.
  - constructor.
    + apply Forall_app. split; [exact Ha|]. constructor; [apply H; now left|constructor].
    + apply IH. intros x Hx. apply H. now right.
Qed.

Lemma create_slot_keeps_disjoint (tz : Z -> Z) (db : DB) (user : AuthUser) (st et d : Z) :
  slots_disjoint db.(slots) ->
  slots_disjoint (snd (create_slot tz db user st et d)).(slots).
Proof.
  intros H. unfold create_slot.
  destruct (et <=? st); [exact H|].
  destruct (overlap_query _ _ _ _ db) as [|y l] eqn:E; [|exact H].
  simpl. apply ForallOrdPairs_snoc; [exact H|].
  intros x Hx [Hf Hd]. simpl in Hf, Hd.
  pose proof (filter_some _ _ E x Hx) as Hq. simpl in Hq.
  rewrite Hf, Hd, Nat.eqb_refl, Z.eqb_refl in Hq. simpl in Hq.
  eapply overlap_filter_false_disjoint; [reflexivity|reflexivity|exact Hq].
Qed.

Lemma run_creates_keeps_disjoint (tz : Z -> Z) (reqs : list CreateReq) :
  forall db, slots_disjoint db.(slots) -> slots_disjoint (run_creates tz db reqs).(slots).
Proof.
  induction reqs as [|r rs IH]; intros db H; simpl; [exact H|].
  apply IH, create_slot_keeps_disjoint, H.
Qed.

(** C3: starting from a table with no slots, after any sequence of creation
    requests handled one after the other, every two slots of the same
    faculty on the same date have disjoint [[start_time, end_time)]
    intervals. *)
Theorem create_slots_disjoint (tz : Z -> Z) (db : DB) (reqs : list CreateReq) :
  db.(slots) = [] -> slots_disjoint (run_creates tz db reqs).(slots).
Proof.
  intros H. apply run_creates_keeps_disjoint. rewrite H. constructor.
Qed.

Lemma create_slots_disjoint_witness :
  slots_disjoint
    (run_creates (fun _ => 0) (sample_db [])
       [mkCreateReq (mkAuthUser 7 "f@x.com" "faculty") 32400000 36000000 0;
        mkCreateReq (mkAuthUser 7 "f@x.com" "faculty") 34200000 37800000 0]).(slots).
Proof. apply create_slots_disjoint. reflexivity. Defined.

(** ** The fallback meeting link *)

Definition lower_alpha (s : string) : Prop :=
  Forall (fun c => (97 <= nat_of_ascii c <= 122)%nat) (list_ascii_of_string s).

Lemma round53_bound (n : Z) : 0 <= n < 2 ^ 58 -> 0 <= round53 n <= n + 16.
Proof.
  intros Hn. unfold round53.
  destruct (Z.ltb_spec n (2 ^ 53)) as [Hs|Hs]; [lia|].
  assert (Hl : 53 <= Z.log2 n < 58).
  { split.
    - apply Z.log2_le_pow2; lia.
    - apply Z.log2_lt_pow2; lia. }
  set (e := Z.log2 n - 52).
  assert (He : 1 <= e <= 5) by (unfold e; lia).
  assert (Hp : 2 ^ e = 2 * 2 ^ (e - 1))
    by (rewrite <- Z.pow_succ_r by lia; f_equal; lia).
  assert (Hp1 : 1 <= 2 ^ (e - 1) <= 16).
  { split.
    - apply (Z.pow_le_mono_r 2 0 (e - 1)); lia.
    - apply (Z.pow_le_mono_r 2 (e - 1) 4); lia. }
  pose proof (Z.div_mod n (2 ^ e) ltac:(lia)) as Hd.
  pose proof (Z.mod_pos_bound n (2 ^ e) ltac:(lia)) as Hm.
  assert (Hq : 0 <= n / 2 ^ e) by (apply Z.div_pos; lia).
  set (q := n / 2 ^ e) in *. set (rm := n mod 2 ^ e) in *.
  destruct ((2 ^ (e - 1) <? rm) || ((rm =? 2 ^ (e - 1)) && Z.odd q)) eqn:C.
  - apply Bool.orb_true_iff in C. rewrite Bool.andb_true_iff, Z.ltb_lt, Z.eqb_eq in C.
    nia.
  - nia.
Qed.

Lemma random_index_bound (m : Z) : 0 <= m < 2 ^ 53 -> (random_index m < 26)%nat.
Proof.
  intros Hm. unfold random_index. change (Z.of_nat (String.length chars)) with 26.
  assert (Hb := round53_bound (m * 26) ltac:(lia)).
  assert (0 <= round53 (m * 26) / 2 ^ 53 < 26).
  { split; [apply Z.div_pos; lia|]. apply Z.div_lt_upper_bound; lia. }
  lia.
Qed.

Lemma char_at_chars (i : nat) :
  (i < 26)%nat -> exists c, char_at chars i = String c EmptyString
                            /\ (97 <= nat_of_ascii c <= 122)%nat.
Proof.
  intros Hi.
  do 26 (destruct i as [|i]; [eexists; split; [reflexivity|split; apply Nat.leb_le; reflexivity]|]).
  lia.
Qed.

Lemma list_ascii_append (a b : string) :
  list_ascii_of_string (a ++ b) = list_ascii_of_string a ++ list_ascii_of_string b.
Proof. induction a as [|c a IH]; simpl; [reflexivity|]. now rewrite IH. Qed.

Lemma build_segment_shape (rnd : nat -> Z) (len : nat) :
  (forall k, 0 <= rnd k < 2 ^ 53) ->
  forall k, String.length (build_segment rnd k len) = len /\ lower_alpha (build_segment rnd k len).
Proof.
  intros Hr. induction len as [|len IH]; intros k; simpl.
  - split; [reflexivity|constructor].
  - destruct (char_at_chars _ (random_index_bound _ (Hr k))) as [c [-> Hc]].
    destruct (IH (S k)) as [Hl Ha]. simpl. split; [now rewrite Hl|].
    constructor; assumption.
Qed.

Lemma segments_fallback (rnd : nat -> Z) :
  generateFallbackMeetLink rnd
  = ("https://meet.google.com/" ++ build_segment rnd 0 3 ++ "-" ++ build_segment rnd 3 4
     ++ "-" ++ build_segment rnd 7 3)%string.
Proof. reflexivity. Qed.

(** ** Rows selected by a primary key *)

Lemma filter_unique_id (l : list Slot) (s : Slot) (P : Slot -> bool) :
  NoDup (map slot_id l) -> In s l -> P s = true ->
  filter (fun x => Nat.eqb x.(slot_id) s.(slot_id) && P x) l = [s].
Proof.
  induction l as [|x l IH]; intros Hnd Hin HP; [contradiction|].
  simpl in Hnd. inversion Hnd as [|? ? Hnot Hnd']; subst.
  assert (Hrest : forall y, In y l -> Nat.eqb y.(slot_id) x.(slot_id) = false).
  { intros y Hy. apply Nat.eqb_neq. intros E. apply Hnot. rewrite <- E. now apply in_map. }
  destruct Hin as [<-|Hin]; simpl.
  - rewrite Nat.eqb_refl, HP. simpl. f_equal. apply filter_none.
    intros y Hy. now rewrite Hrest.
  - assert (Hne : Nat.eqb x.(slot_id) s.(slot_id) = false).
    { apply Nat.eqb_neq. intros E. apply Hnot. rewrite E. now apply in_map. }
    rewrite Hne. simpl. now apply IH.
Qed.

Lemma fetch_available_unique (db : DB) (s : Slot) :
  NoDup (map slot_id db.(slots)) -> In s db.(slots) -> s.(status) = available ->
  fetch_available db s.(slot_id) = Some s.
Proof.
  intros Hnd Hin Ha. unfold fetch_available.
  rewrite (filter_unique_id _ s (fun x => status_eqb x.(status) available)); try easy.
  now rewrite Ha.
Qed.

Lemma update_booked_ids (db : DB) (sid sch : nat) (n link : option string) :
  map slot_id (update_booked db sid sch n link).(slots) = map slot_id db.(slots).
Proof.
  unfold update_booked. simpl. rewrite map_map. apply map_ext.
  intros x. destruct (Nat.eqb x.(slot_id) sid); reflexivity.
Qed.

Lemma update_booked_in (db : DB) (s : Slot) (sch : nat) (n link : option string) :
  In s db.(slots) ->
  In (booked_row sch n link s) (update_booked db s.(slot_id) sch n link).(slots).
Proof.
  intros Hin. unfold update_booked. simpl. apply in_map_iff. exists s.
  now rewrite Nat.eqb_refl.
Qed.

Lemma fetch_by_id_unique (db : DB) (s : Slot) :
  NoDup (map slot_id db.(slots)) -> In s db.(slots) -> fetch_by_id db s.(slot_id) = Some s.
Proof.
  intros Hnd Hin. unfold fetch_by_id.
  rewrite (filter_ext _ (fun x => Nat.eqb x.(slot_id) s.(slot_id) && (fun _ => true) x))
    by (intros; now rewrite Bool.andb_true_r).
  now rewrite filter_unique_id.
Qed.

(** Booking an available slot (slot ids are the primary key) succeeds and
    stores the booked row, whatever link the provisioning step produced. *)
Lemma book_slot_available (db : DB) (r : BookReq) (s : Slot) :
  NoDup (map slot_id db.(slots)) -> In s db.(slots) -> s.(slot_id) = r.(bk_slot) ->
  s.(status) = available ->
  let link := createRealGoogleMeet r.(bk_prov) r.(bk_rnd) in
  let b := booked_row r.(bk_user).(au_id) r.(bk_notes) link s in
  let db' := update_booked db r.(bk_slot) r.(bk_user).(au_id) r.(bk_notes) link in
  book_slot db r = (Ok (mkBookResp b link), db') /\ In b db'.(slots)
  /\ NoDup (map slot_id db'.(slots)).
Proof.
  intros Hnd Hin Hid Ha link b db'. subst b db'. rewrite <- Hid.
  unfold book_slot. rewrite <- Hid, (fetch_available_unique _ _ Hnd Hin Ha). fold link.
  assert (Hin' := update_booked_in db s (au_id (bk_user r)) (bk_notes r) link Hin).
  assert (Hnd' : NoDup (map slot_id (update_booked db (slot_id s) (au_id (bk_user r))
                                       (bk_notes r) link).(slots)))
    by now rewrite update_booked_ids.
  repeat split; try assumption.
  change (slot_id s) with (slot_id (booked_row (au_id (bk_user r)) (bk_notes r) link s))
    at 2.
  rewrite (fetch_by_id_unique _ _ Hnd' Hin'). reflexivity.
Qed.

(** C8: when the provisioning call fails, booking an available slot still
    succeeds, and the stored and returned [meeting_link] is
    ["https://meet.google.com/"] followed by three hyphen-separated segments
    of 3, 4 and 3 lowercase letters.  ([Math.random()] is the 53-bit source
    [bk_rnd].) *)
Theorem book_fallback_link (db : DB) (r : BookReq) (s : Slot) :
  NoDup (map slot_id db.(slots)) ->
  In s db.(slots) -> s.(slot_id) = r.(bk_slot) -> s.(status) = available ->
  r.(bk_prov) = ProvisionFail ->
  (forall k, 0 <= r.(bk_rnd) k < 2 ^ 53) ->
  exists link a b c db',
    book_slot db r
    = (Ok (mkBookResp (booked_row r.(bk_user).(au_id) r.(bk_notes) (Some link) s)
                      (Some link)), db')
    /\ In (booked_row r.(bk_user).(au_id) r.(bk_notes) (Some link) s) db'.(slots)
    /\ link = ("https://meet.google.com/" ++ a ++ "-" ++ b ++ "-" ++ c)%string
    /\ String.length a = 3%nat /\ String.length b = 4%nat /\ String.length c = 3%nat
    /\ lower_alpha a /\ lower_alpha b /\ lower_alpha c.
Proof.
  intros Hnd Hin Hid Ha Hp Hr.
  destruct (book_slot_available db r s Hnd Hin Hid Ha) as [Hb [Hin' _]].
  unfold createRealGoogleMeet in Hb, Hin'. rewrite Hp in Hb, Hin'.
  destruct (build_segment_shape _ 3 Hr 0) as [La Aa].
  destruct (build_segment_shape _ 4 Hr 3) as [Lb Ab].
  destruct (build_segment_shape _ 3 Hr 7) as [Lc Ac].
  do 5 eexists. split; [exact Hb|]. split; [exact Hin'|].
  split; [apply segments_fallback|]. repeat split; eassumption.
Qed.

Lemma book_fallback_link_witness :
  exists link a b c db',
    book_slot (sample_db [sample_slot 1 7 available]) (sample_req 3 1 ProvisionFail)
    = (Ok (mkBookResp (booked_row 3 None (Some link) (sample_slot 1 7 available))
                      (Some link)), db')
    /\ In (booked_row 3 None (Some link) (sample_slot 1 7 available)) db'.(slots)
    /\ link = ("https://meet.google.com/" ++ a ++ "-" ++ b ++ "-" ++ c)%string
    /\ String.length a = 3%nat /\ String.length b = 4%nat /\ String.length c = 3%nat
    /\ lower_alpha a /\ lower_alpha b /\ lower_alpha c.
Proof.
  apply (book_fallback_link (sample_db [sample_slot 1 7 available])
           (sample_req 3 1 ProvisionFail) (sample_slot 1 7 available)).
  - simpl. constructor; [intros []|constructor].
  - now left.
  - reflexivity.
  - reflexivity.
  - reflexivity.
  - intros k. simpl. lia.
Defined.

(** ** Concurrent bookings of one slot *)

Definition race_db : DB := sample_db [sample_slot 1 7 available].

Definition race_reqs : list BookReq :=
  [sample_req 3 1 (ProvisionOk (Some "https://meet.google.com/abc-defg-hij"%string));
   sample_req 4 1 (ProvisionOk (Some "https://meet.google.com/klm-nopq-rst"%string))].

(** C1 fails on the code: two scholars book the same available slot, both
    first queries run before either update (the provisioning call sits
    between them), and the update is keyed on the id alone.  Both requests
    answer "Slot booked successfully"; the second overwrites the first
    booking's scholar and meeting link. *)
Theorem book_race_both_succeed :
  let '(db', pcs) := run_sched race_reqs race_db [0; 1; 0; 1; 0; 1]%nat in
  map succeeded pcs = [true; true]
  /\ map scholar_id db'.(slots) = [Some 4%nat]
  /\ map meeting_link db'.(slots) = [Some "https://meet.google.com/klm-nopq-rst"%string].
Proof. vm_compute. repeat split. Qed.

(** Handled one after the other, requests for one available slot succeed
    exactly once: the first books it, every later one is refused 404. *)
Fixpoint run_books (db : DB) (reqs : list BookReq) : list (Outcome BookResp) * DB :=
  match reqs with
  | [] => ([], db)
  | r :: rs =>
      let (o, db1) := book_slot db r in
      let (os, db2) := run_books db1 rs in
      (o :: os, db2)
  end.

Lemma unique_id_row (l : list Slot) (b y : Slot) :
  NoDup (map slot_id l) -> In b l -> In y l -> y.(slot_id) = b.(slot_id) -> y = b.
Proof.
  intros Hnd Hb Hy E.
  assert (Hf := filter_unique_id l b (fun _ => true) Hnd Hb eq_refl).
  assert (Hy' : In y (filter (fun x => Nat.eqb x.(slot_id) b.(slot_id) && true) l)).
  { apply filter_In. split; [exact Hy|]. rewrite E, Nat.eqb_refl. reflexivity. }
  rewrite Hf in Hy'. destruct Hy' as [<-|[]]. reflexivity.
Qed.

Lemma run_books_refused (sid : nat) (rs : list BookReq) :
  forall db, Forall (fun r => r.(bk_slot) = sid) rs ->
  (forall s, In s db.(slots) -> s.(slot_id) = sid -> s.(status) <> available) ->
  run_books db rs = (map (fun _ => Err 404 "Slot not available") rs, db).
Proof.
  induction rs as [|r rs IH]; intros db Hall H; simpl; [reflexivity|].
  inversion Hall as [|? ? Hr Hrs]; subst.
  rewrite book_slot_none by exact H. rewrite IH by assumption. reflexivity.
Qed.

(** X13: booking requests for one available slot (slot ids unique),
    handled one after the other: the first succeeds and every later one is
    refused 404 "Slot not available". *)
Theorem serial_bookings_one_success (db : DB) (s : Slot) (r : BookReq) (rs : list BookReq) :
  NoDup (map slot_id db.(slots)) -> In s db.(slots) -> s.(status) = available ->
  Forall (fun x => x.(bk_slot) = s.(slot_id)) (r :: rs) ->
  exists resp, fst (run_books db (r :: rs))
               = Ok resp :: map (fun _ => Err 404 "Slot not available") rs.
Proof.
  intros Hnd Hin Ha Hall. inversion Hall as [|? ? Hr Hrs]; subst.
  destruct (book_slot_available db r s Hnd Hin (eq_sym Hr) Ha) as (Hb & Hin' & Hnd').
  simpl. rewrite Hb. erewrite run_books_refused; [eexists; reflexivity| |].
  - eapply Forall_impl; [|exact Hrs]. intros x Hx. exact Hx.
  - intros y Hy Hid.
    rewrite (unique_id_row _ _ _ Hnd' Hin' Hy Hid). simpl. discriminate.
Qed.

(** ** Self role change *)




(** ** Role pre-assignment and first login *)

Lemma set_role_of_email_absent (e r : string) (us : list User) :
  (forall u, In u us -> u.(email) <> e) -> set_role_of_email e r us = us.
Proof.
  induction us as [|u us IH]; intros H; simpl; [reflexivity|].
  unfold emails_eqb. destruct (String.eqb_spec (email u) e) as [E|_].
  - exfalso. exact (H u (or_introl eq_refl) E).
  - f_equal. apply IH. intros v Hv. apply H. now right.
Qed.

Lemma users_email_absent (e : string) (us : list User) :
  (forall u, In u us -> u.(email) <> e) -> filter (fun u => emails_eqb u.(email) e) us = [].
Proof.
  intros H. apply filter_none. intros u Hu. unfold emails_eqb.
  destruct (String.eqb_spec (email u) e); [exfalso; exact (H u Hu e0)|reflexivity].
Qed.

Lemma ur_upsert_users (e r : string) (db : DB) :
  (forall u, In u db.(users) -> u.(email) <> e) -> (ur_upsert e r db).(users) = db.(users).
Proof. intros H. unfold ur_upsert, sync_user_role. simpl. now apply set_role_of_email_absent. Qed.

Lemma rows_email_at_most_one (e : string) (rows : list RoleRow) :
  NoDup (map rr_email rows) ->
  filter (fun x => emails_eqb x.(rr_email) e) rows = []
  \/ exists x, filter (fun x => emails_eqb x.(rr_email) e) rows = [x].
Proof.
  induction rows as [|x rows IH]; intros Hnd; simpl; [now left|].
  inversion Hnd as [|? ? Hnot Hnd']; subst.
  destruct (emails_eqb (rr_email x) e) eqn:E.
  - right. exists x. f_equal. apply filter_none. intros y Hy. unfold emails_eqb in *.
    apply String.eqb_eq in E.
    destruct (String.eqb_spec (rr_email y) e) as [E'|]; [|reflexivity].
    exfalso. apply Hnot. rewrite E, <- E'. now apply in_map.
  - now apply IH.
Qed.

Lemma filter_rows_map (e r : string) (rows : list RoleRow) :
  filter (fun x => emails_eqb x.(rr_email) e)
    (map (fun x => if emails_eqb x.(rr_email) e then mkRoleRow e r else x) rows)
  = map (fun _ => mkRoleRow e r) (filter (fun x => emails_eqb x.(rr_email) e) rows).
Proof.
  induction rows as [|x rows IH]; simpl; [reflexivity|].
  destruct (emails_eqb (rr_email x) e) eqn:E; simpl.
  - unfold emails_eqb at 1. rewrite String.eqb_refl. now rewrite IH.
  - rewrite E. exact IH.
Qed.

Lemma ur_upsert_rows (e r : string) (db : DB) :
  NoDup (map rr_email db.(user_roles)) ->
  filter (fun x => emails_eqb x.(rr_email) e) (ur_upsert e r db).(user_roles)
  = [mkRoleRow e r].
Proof.
  intros Hnd. unfold ur_upsert, sync_user_role. simpl.
  destruct (existsb (fun x => emails_eqb (rr_email x) e) (user_roles db)) eqn:Ex.
  - rewrite filter_rows_map.
    destruct (rows_email_at_most_one e _ Hnd) as [H|[x H]]; rewrite H; [|reflexivity].
    exfalso. apply existsb_exists in Ex. destruct Ex as [x [Hx Hxe]].
    assert (In x (filter (fun x => emails_eqb (rr_email x) e) (user_roles db)))
      by (apply filter_In; auto).
    rewrite H in *. contradiction.
  - rewrite filter_app. simpl. unfold emails_eqb at 2. rewrite String.eqb_refl.
    rewrite filter_none; [reflexivity|].
    intros x Hx. destruct (emails_eqb (rr_email x) e) eqn:E; [|reflexivity].
    exfalso. assert (existsb (fun x => emails_eqb (rr_email x) e) (user_roles db) = true)
      by (apply existsb_exists; eauto). congruence.
Qed.

Lemma valid_role_nonempty (r : string) : valid_role r = true -> String.eqb r "" = false.
Proof.
  intros V. destruct (String.eqb_spec r "") as [->|]; [discriminate V|reflexivity].
Qed.

Lemma users_insert_fresh (u : User) (db : DB) :
  (forall v, In v db.(users) -> v.(email) <> u.(email) /\ v.(google_id) <> u.(google_id)) ->
  users_insert u db = Some (mkDB (db.(users) ++ [u]) db.(user_roles) db.(slots) db.(next_id)).
Proof.
  intros H. unfold users_insert.
  destruct (existsb _ _) eqn:Ex; [|reflexivity].
  apply existsb_exists in Ex. destruct Ex as [v [Hv Hvu]].
  destruct (H v Hv) as [H1 H2]. unfold emails_eqb in Hvu.
  apply Bool.orb_true_iff in Hvu. rewrite !String.eqb_eq in Hvu. tauto.
Qed.

Lemma set_role_preassign (db : DB) (admin : AuthUser) (e r : string) :
  admin.(au_role) = "admin"%string -> valid_role r = true -> e <> ""%string ->
  e <> admin.(au_email) -> (forall u, In u db.(users) -> u.(email) <> e) ->
  set_role_by_email db admin (Some e) (Some r) = (Ok (mkRoleRow e r), ur_upsert e r db).
Proof.
  intros Ha V He Hne Hu. unfold set_role_by_email, requireRole. rewrite Ha. simpl.
  unfold set_role_by_email_handler, truthy.
  rewrite (proj2 (String.eqb_neq e "") He), (valid_role_nonempty r V), V.
  rewrite (proj2 (String.eqb_neq e (au_email admin)) Hne). simpl.
  rewrite set_role_of_email_absent, users_email_absent by exact Hu. reflexivity.
Qed.

(** C7: with the schema's unique [user_roles.email], for an email with no
    [users] row (and a Google account id no row holds): an admin's
    pre-assignment of a valid role [r] succeeds, and the first login that
    follows creates a new [users] row whose role is [r]; and a first login of
    an email with no role assignment stores a ['scholar'] row in [user_roles]
    and creates a [users] row with role ['scholar']. *)
Theorem preassigned_role_applied_at_first_login (db : DB) (p : GooglePayload) :
  (forall u, In u db.(users) -> u.(email) <> p.(gp_email) /\ u.(google_id) <> p.(gp_sub)) ->
  (forall (admin : AuthUser) (r : string),
     NoDup (map rr_email db.(user_roles)) ->
     admin.(au_role) = "admin"%string -> valid_role r = true ->
     p.(gp_email) <> ""%string -> p.(gp_email) <> admin.(au_email) ->
     let '(o1, db1) := set_role_by_email db admin (Some p.(gp_email)) (Some r) in
     o1 = Ok (mkRoleRow p.(gp_email) r)
     /\ exists u db2, auth_google db1 p = (Ok u, db2)
                      /\ u.(role) = r /\ u.(email) = p.(gp_email)
                      /\ In u db2.(users) /\ ~ In u db1.(users)) /\
  ((forall x, In x db.(user_roles) -> x.(rr_email) <> p.(gp_email)) ->
     exists u db2, auth_google db p = (Ok u, db2)
                   /\ u.(role) = "scholar"%string /\ u.(email) = p.(gp_email)
                   /\ In u db2.(users) /\ ~ In u db.(users)
                   /\ In (mkRoleRow p.(gp_email) "scholar") db2.(user_roles)).
Proof.
  intros Hfresh.
  assert (Hu : forall u, In u db.(users) -> u.(email) <> p.(gp_email))
    by (intros u Hin; apply (Hfresh u Hin)).
  split.
  - intros admin r Hnd Ha V He Hne.
    rewrite (set_role_preassign db admin _ r Ha V He Hne Hu).
    split; [reflexivity|].
    assert (HU := ur_upsert_users (gp_email p) r db Hu).
    assert (HR := ur_upsert_rows (gp_email p) r db Hnd).
    set (db1 := ur_upsert (gp_email p) r db) in *. clearbody db1.
    unfold auth_google. rewrite HR. simpl.
    rewrite HU, users_email_absent by exact Hu.
    rewrite users_insert_fresh.
    + do 2 eexists. split; [reflexivity|]. simpl. repeat split.
      * apply in_or_app. right. now left.
      * rewrite ?HU. intros Hin. exact (Hu _ Hin eq_refl).
    + simpl. rewrite ?HU. exact Hfresh.
  - intros Hr. unfold auth_google.
    rewrite filter_none.
    2:{ intros x Hx. unfold emails_eqb. apply String.eqb_neq. exact (Hr x Hx). }
    simpl.
    assert (Hex : existsb (fun x => emails_eqb (rr_email x) (gp_email p)) (user_roles db) = false).
    { apply Bool.not_true_iff_false. intros Hex. apply existsb_exists in Hex.
      destruct Hex as [x [Hx Hxe]]. unfold emails_eqb in Hxe. apply String.eqb_eq in Hxe.
      exact (Hr x Hx Hxe). }
    unfold ur_insert. rewrite Hex. unfold sync_user_role. simpl.
    rewrite set_role_of_email_absent, users_email_absent by exact Hu.
    rewrite users_insert_fresh by exact Hfresh.
    do 2 eexists. split; [reflexivity|]. simpl. repeat split.
    + apply in_or_app. right. now left.
    + intros Hin. exact (Hu _ Hin eq_refl).
    + apply in_or_app. right. now left.
Qed.

Lemma preassigned_role_applied_at_first_login_witness :
  let db := mkDB [mkUser 1 "admin@x.com" "Admin" None "g-admin" "admin"]
                 [mkRoleRow "admin@x.com" "admin"] [] 2 in
  let p := mkGooglePayload "new@x.com" "New" None "g-new" in
  let '(o1, db1) := set_role_by_email db (mkAuthUser 1 "admin@x.com" "admin")
                                      (Some "new@x.com"%string) (Some "faculty"%string) in
  o1 = Ok (mkRoleRow "new@x.com" "faculty")
  /\ exists u db2, auth_google db1 p = (Ok u, db2)
                   /\ u.(role) = "faculty"%string /\ u.(email) = "new@x.com"%string
                   /\ In u db2.(users) /\ ~ In u db1.(users).
Proof.
  apply (proj1 (preassigned_role_applied_at_first_login
                  (mkDB [mkUser 1 "admin@x.com" "Admin" None "g-admin" "admin"]
                        [mkRoleRow "admin@x.com" "admin"] [] 2)
                  (mkGooglePayload "new@x.com" "New" None "g-new")
                  ltac:(intros u [<-|[]]; simpl; split; discriminate))
           (mkAuthUser 1 "admin@x.com" "admin") "faculty"%string).
  - simpl. constructor; [intros []|constructor].
  - reflexivity.
  - reflexivity.
  - simpl. discriminate.
  - simpl. discriminate.
Defined.

(** ** The two role stores agree *)

(** Every [users] row and [user_roles] row of the same email carry the same
    role. *)
Definition roles_mirrored (db : DB) : Prop :=
  forall u x, In u db.(users) -> In x db.(user_roles) -> u.(email) = x.(rr_email) ->
              u.(role) = x.(rr_role).

(** The same, except for the emails of [E] (a sync still pending for them). *)
Definition mirrored_except (E : list string) (db : DB) : Prop :=
  forall u x, In u db.(users) -> In x db.(user_roles) -> u.(email) = x.(rr_email) ->
              ~ In u.(email) E -> u.(role) = x.(rr_role).

Lemma mirrored_except_nil (db : DB) : mirrored_except [] db <-> roles_mirrored db.
Proof.
  unfold mirrored_except, roles_mirrored. split; intros H u x Hu Hx He; auto.
Qed.

Lemma mirrored_except_weaken (E E' : list string) (db : DB) :
  (forall e, In e E -> In e E') -> mirrored_except E db -> mirrored_except E' db.
Proof. intros Hs H u x Hu Hx He Hn. apply H; auto. Qed.

Lemma in_set_role_of_email (e r : string) (us : list User) (u : User) :
  In u (set_role_of_email e r us) ->
  exists u0, In u0 us /\ u.(email) = u0.(email)
             /\ (if emails_eqb u0.(email) e then u.(role) = r else u = u0).
Proof.
  unfold set_role_of_email. intros H. apply in_map_iff in H. destruct H as [u0 [<- Hin]].
  exists u0. split; [exact Hin|].
  destruct (emails_eqb (email u0) e); split; reflexivity.
Qed.

Lemma ur_upsert_except (e r : string) (E : list string) (db : DB) :
  mirrored_except (e :: E) db -> mirrored_except E (ur_upsert e r db).
Proof.
  intros H u x Hu Hx Hux HnE.
  unfold ur_upsert, sync_user_role in Hu, Hx. simpl in Hu, Hx.
  destruct (in_set_role_of_email _ _ _ _ Hu) as (u0 & Hu0 & Hem & Hrole).
  unfold emails_eqb in *.
  destruct (existsb (fun x => String.eqb (rr_email x) e) (user_roles db)) eqn:Ex.
  - apply in_map_iff in Hx. destruct Hx as [x0 [Hxx Hx0]].
    destruct (String.eqb_spec (rr_email x0) e) as [Ex0|Ex0];
      destruct (String.eqb_spec (email u0) e) as [Eu0|Eu0]; subst x.
    + exact Hrole.
    + simpl in Hux. congruence.
    + congruence.
    + subst u. apply H; auto. intros [He|He]; [congruence|exact (HnE He)].
  - apply in_app_or in Hx. destruct Hx as [Hx|[<-|[]]].
    + destruct (String.eqb_spec (rr_email x) e) as [Exe|Exe].
      * exfalso. assert (existsb (fun x => String.eqb (rr_email x) e) (user_roles db) = true)
          by (apply existsb_exists; exists x; split; [exact Hx|now apply String.eqb_eq]).
        congruence.
      * destruct (String.eqb_spec (email u0) e) as [Eu0|Eu0]; [congruence|].
        subst u. apply H; auto. intros [He|He]; [congruence|exact (HnE He)].
    + simpl in *. destruct (String.eqb_spec (email u0) e) as [Eu0|Eu0]; [exact Hrole|].
      congruence.
Qed.

Lemma sync_role_to_user_roles_except (L : list User) :
  forall (E : list string) (db : DB),
  mirrored_except (map email L ++ E) db -> mirrored_except E (sync_role_to_user_roles L db).
Proof.
  induction L as [|u L IH]; intros E db H; simpl in *; [exact H|].
  apply IH. apply ur_upsert_except.
  eapply mirrored_except_weaken; [|exact H].
  intros e' [<-|He']; [now left|]. right. exact He'.
Qed.

Lemma users_update_mirrored (p : User -> bool) (f : User -> User) (db : DB) :
  (forall u, (f u).(email) = u.(email)) ->
  roles_mirrored db -> roles_mirrored (users_update p f db).
Proof.
  intros Hf H. apply mirrored_except_nil. unfold users_update.
  apply sync_role_to_user_roles_except. rewrite app_nil_r.
  intros u x Hu Hx Hux Hn. simpl in Hu, Hx.
  apply in_map_iff in Hu. destruct Hu as [u0 [<- Hu0]].
  destruct (p u0) eqn:Pu0.
  - destruct (String.eqb_spec (role (f u0)) (role u0)) as [Er|Er].
    + rewrite Er. apply H; auto. now rewrite <- Hf.
    + exfalso. apply Hn. rewrite map_map. apply in_map_iff. exists u0. split; [reflexivity|].
      apply filter_In. split; [exact Hu0|]. rewrite Pu0. simpl.
      now apply Bool.negb_true_iff, String.eqb_neq.
  - apply H; auto.
Qed.

Lemma ur_upsert_mirrored (e r : string) (db : DB) :
  roles_mirrored db -> roles_mirrored (ur_upsert e r db).
Proof.
  intros H. apply mirrored_except_nil, ur_upsert_except.
  intros u x Hu Hx Hux _. exact (H u x Hu Hx Hux).
Qed.

(** C9: if the two role stores agree before a role mutation (by id or by
    email, whatever the caller, outcome or arguments), they agree after it:
    the [users] role is written in the same operation as the [user_roles]
    upsert (and the triggers mirror each write). *)
Theorem role_mutations_keep_roles_mirrored (db : DB) (user : AuthUser) :
  roles_mirrored db ->
  (forall userId r, roles_mirrored (snd (patch_role db user userId r))) /\
  (forall e r, roles_mirrored (snd (set_role_by_email db user e r))).
Proof.
  intros H.
  assert (Hw : forall r (u : User), (with_role r u).(email) = u.(email)) by reflexivity.
  split.
  - intros userId r. unfold patch_role, requireRole.
    destruct (existsb _ _); [|exact H].
    unfold patch_role_handler.
    destruct (negb (valid_role r)); [exact H|].
    destruct (Nat.eqb userId (au_id user)); [exact H|].
    destruct (single _) as [target|]; [|exact H].
    assert (H2 : roles_mirrored (users_update (fun u => Nat.eqb (user_id u) userId) (with_role r)
                                  (ur_upsert (email target) r db)))
      by (apply users_update_mirrored; [apply Hw|now apply ur_upsert_mirrored]).
    destruct (single _); exact H2.
  - intros e r. unfold set_role_by_email, requireRole.
    destruct (existsb _ _); [|exact H].
    unfold set_role_by_email_handler.
    destruct e as [e|]; [|exact H]. destruct r as [r|]; [|exact H].
    destruct (negb (truthy (Some e)) || negb (truthy (Some r))); [exact H|].
    destruct (negb (valid_role r)); [exact H|].
    destruct (String.eqb e (au_email user)); [exact H|].
    simpl. destruct (single _).
    + apply users_update_mirrored; [apply Hw|now apply ur_upsert_mirrored].
    + now apply ur_upsert_mirrored.
Qed.

Definition mirror_db : DB :=
  mkDB [mkUser 1 "admin@x.com" "Admin" None "g1" "admin";
        mkUser 2 "f@x.com" "F" None "g2" "scholar"]
       [mkRoleRow "admin@x.com" "admin"; mkRoleRow "f@x.com" "scholar"] [] 3.

Lemma role_mutations_keep_roles_mirrored_witness :
  roles_mirrored (snd (patch_role mirror_db (mkAuthUser 1 "admin@x.com" "admin") 2 "faculty")).
Proof.
  apply (proj1 (role_mutations_keep_roles_mirrored mirror_db (mkAuthUser 1 "admin@x.com" "admin")
                  ltac:(unfold roles_mirrored; simpl; intros u x [<-|[<-|[]]] [<-|[<-|[]]];
                        simpl; intros E; try reflexivity; discriminate))).
Defined.

(* ================================================================== *)
(** * Further properties of the code *)

(** ** [groupSlotsByDate] *)

Lemma group_lookup_push (d k : Z) (s : Slot) (g : list (Z * list Slot)) :
  group_lookup d (push_grouped k s g)
  = if Z.eqb k d
    then Some (match group_lookup d g with Some l => l | None => [] end ++ [s])
    else group_lookup d g.
Proof.
  induction g as [|[k' l] g IH]; simpl.
  - destruct (Z.eqb k d); reflexivity.
  - destruct (Z.eqb_spec k' k) as [->|Hne]; simpl.
    + destruct (Z.eqb k d); reflexivity.
    + rewrite IH. destruct (Z.eqb_spec k' d) as [->|]; [|reflexivity].
      destruct (Z.eqb_spec k d); [congruence|reflexivity].
Qed.

Definition opt_app (o : option (list Slot)) (m : list Slot) : option (list Slot) :=
  match o, m with
  | None, [] => None
  | None, _ => Some m
  | Some a, _ => Some (a ++ m)
  end.

Lemma group_lookup_fold (d : Z) (l : list Slot) :
  forall g, group_lookup d (fold_left (fun g s => push_grouped s.(date) s g) l g)
            = opt_app (group_lookup d g) (filter (fun s => Z.eqb s.(date) d) l).
Proof.
  induction l as [|x l IH]; intros g; simpl.
  - destruct (group_lookup d g); simpl; [now rewrite app_nil_r|reflexivity].
  - rewrite IH, group_lookup_push. destruct (Z.eqb (date x) d).
    + destruct (group_lookup d g); simpl; [now rewrite <- app_assoc|].
      destruct (filter _ l); reflexivity.
    + reflexivity.
Qed.

Lemma group_keys_push (d : Z) (s : Slot) (g : list (Z * list Slot)) :
  NoDup (map fst g) ->
  NoDup (map fst (push_grouped d s g))
  /\ (forall k, In k (map fst (push_grouped d s g)) <-> k = d \/ In k (map fst g)).
Proof.
  induction g as [|[k' l] g IH]; intros Hnd; simpl.
  - split; [repeat constructor; intros []|]. intros k. simpl. intuition.
  - inversion Hnd as [|? ? Hnot Hnd']; subst.
    destruct (Z.eqb_spec k' d) as [->|Hne]; simpl.
    + split; [exact Hnd|]. intros k. intuition.
    + destruct (IH Hnd') as [H1 H2]. split.
      * constructor; [|exact H1]. rewrite H2. intuition.
      * intros k. rewrite H2. intuition.
Qed.

Lemma group_keys_fold (l : list Slot) :
  forall g, NoDup (map fst g) ->
  NoDup (map fst (fold_left (fun g s => push_grouped s.(date) s g) l g))
  /\ (forall k, In k (map fst (fold_left (fun g s => push_grouped s.(date) s g) l g))
                <-> In k (map fst g) \/ exists s, In s l /\ s.(date) = k).
Proof.
  induction l as [|x l IH]; intros g Hnd; simpl.
  - split; [exact Hnd|]. intros k. split; [now left|]. intros [H|[s [[] _]]]. exact H.
  - destruct (group_keys_push (date x) x g Hnd) as [H1 H2].
    destruct (IH _ H1) as [H3 H4]. split; [exact H3|].
    intros k. rewrite H4, H2. split.
    + intros [[->|H]|[s [Hs Hk]]]; [right; exists x; auto|now left|right; exists s; auto].
    + intros [H|[s [[<-|Hs] Hk]]]; [left; now right|left; now left|right; exists s; auto].
Qed.

Lemma group_keys_push_in (d k : Z) (s : Slot) (g : list (Z * list Slot)) :
  In k (map fst (push_grouped d s g)) -> k = d \/ In k (map fst g).
Proof.
  induction g as [|[k' l] g IH]; simpl.
  - intuition.
  - destruct (Z.eqb k' d); simpl; intuition.
Qed.

(** The keys of the groups are strictly increasing while the slots pushed
    come in nondecreasing date order. *)
Lemma group_push_concat (d : Z) (s : Slot) (g : list (Z * list Slot)) :
  StronglySorted Z.lt (map fst g) -> Forall (fun k => k <= d) (map fst g) ->
  List.concat (map snd (push_grouped d s g)) = List.concat (map snd g) ++ [s]
  /\ StronglySorted Z.lt (map fst (push_grouped d s g))
  /\ Forall (fun k => k <= d) (map fst (push_grouped d s g)).
Proof.
  induction g as [|[k l] g IH]; intros Hs Hf; simpl.
  - repeat constructor. lia.
  - simpl in Hs, Hf. inversion Hs as [|? ? Hs' Hlt]; subst.
    inversion Hf as [|? ? Hkd Hf']; subst.
    destruct (Z.eqb_spec k d) as [->|Hne]; simpl.
    + assert (g = []) as ->.
      { destruct g as [|[k2 l2] g]; [reflexivity|]. exfalso. simpl in Hlt, Hf'.
        inversion Hlt; inversion Hf'; subst. lia. }
      simpl. rewrite !app_nil_r. repeat constructor; lia.
    + destruct (IH Hs' Hf') as (H1 & H2 & H3). rewrite H1, app_assoc.
      split; [reflexivity|]. split; [|constructor; [lia|exact H3]].
      constructor; [exact H2|]. apply Forall_forall. intros k2 Hk2.
      apply group_keys_push_in in Hk2. destruct Hk2 as [->|Hk2]; [lia|].
      rewrite Forall_forall in Hlt. now apply Hlt.
Qed.

Lemma group_concat_fold (l : list Slot) :
  forall g, StronglySorted (fun a b => a.(date) <= b.(date)) l ->
  StronglySorted Z.lt (map fst g) ->
  (forall k y, In k (map fst g) -> In y l -> k <= y.(date)) ->
  List.concat (map snd (fold_left (fun g s => push_grouped s.(date) s g) l g))
  = List.concat (map snd g) ++ l.
Proof.
  induction l as [|x l IH]; intros g Hl Hs Hk; simpl; [now rewrite app_nil_r|].
  inversion Hl as [|? ? Hl' Hx]; subst.
  assert (Hf : Forall (fun k => k <= date x) (map fst g))
    by (apply Forall_forall; intros k Hin; apply Hk; [exact Hin|now left]).
  destruct (group_push_concat (date x) x g Hs Hf) as (H1 & H2 & H3).
  rewrite IH; [rewrite H1, <- app_assoc; reflexivity|exact Hl'|exact H2|].
  intros k y Hin Hy. rewrite Forall_forall in H3, Hx.
  specialize (H3 k Hin). specialize (Hx y Hy). simpl in Hx. lia.
Qed.

(** X1: for every date, the group [groupSlotsByDate] builds under it is
    exactly the list of slots of that date, in their order in the input,
    and there is no group for a date no slot has. *)
Theorem groupSlotsByDate_lookup (l : list Slot) (d : Z) :
  group_lookup d (groupSlotsByDate l)
  = match filter (fun s => Z.eqb s.(date) d) l with
    | [] => None
    | m => Some m
    end.
Proof.
  unfold groupSlotsByDate. rewrite group_lookup_fold. simpl.
  destruct (filter _ l); reflexivity.
Qed.

(** X2: the groups of [groupSlotsByDate] have pairwise distinct dates, and
    their dates are exactly the dates of the input slots. *)
Theorem groupSlotsByDate_keys (l : list Slot) :
  NoDup (map fst (groupSlotsByDate l))
  /\ (forall d, In d (map fst (groupSlotsByDate l)) <-> exists s, In s l /\ s.(date) = d).
Proof.
  unfold groupSlotsByDate. destruct (group_keys_fold l [] (NoDup_nil _)) as [H1 H2].
  split; [exact H1|]. intros d. rewrite H2. simpl. intuition.
Qed.

Lemma list_available_by_date (db : DB) (now : Z) (fq : option nat) (dq : option Z) :
  StronglySorted (fun a b => a.(date) <= b.(date)) (list_available db now fq dq).
Proof.
  apply Sorted_StronglySorted; [intros a b c; lia|].
  unfold list_available. eapply sorted_weaken; [|apply sort_by_key_sorted].
  intros a b. unfold key_rel, key_le.
  rewrite Bool.orb_true_iff, Bool.andb_true_iff, Z.ltb_lt, Z.eqb_eq, Z.leb_le. lia.
Qed.

(** X3: on the available-slots page, the date groups built from the listing
    the backend returns, read in [Object.entries] order, give back that
    listing exactly: every listed slot is shown once, in the server's order. *)
Theorem available_page_groups (db : DB) (now : Z) (fq : option nat) (dq : option Z) :
  List.concat (map snd (groupSlotsByDate (list_available db now fq dq)))
  = list_available db now fq dq.
Proof.
  unfold groupSlotsByDate. rewrite group_concat_fold; [reflexivity| |constructor|].
  - apply list_available_by_date.
  - intros k y [].
Qed.

(** ** Slot ids and overlap-freedom along any sequence of slot operations *)

(** Ids are pairwise distinct and below the fresh-id counter. *)
Definition slot_ids_ok (db : DB) : Prop :=
  NoDup (map slot_id db.(slots)) /\ (forall s, In s db.(slots) -> (slot_id s < next_id db)%nat).

Lemma ForallOrdPairs_map_pres {A} (R : A -> A -> Prop) (f : A -> A) (l : list A) :
  (forall a b, R a b -> R (f a) (f b)) -> ForallOrdPairs R l -> ForallOrdPairs R (map f l).
Proof.
  intros Hf. induction 1 as [|a l Ha Hl IH]; simpl; constructor; [|exact IH].
  apply Forall_map. eapply Forall_impl; [|exact Ha]. intros b. apply Hf.
Qed.

Lemma ForallOrdPairs_filter {A} (R : A -> A -> Prop) (p : A -> bool) (l : list A) :
  ForallOrdPairs R l -> ForallOrdPairs R (filter p l).
Proof.
  induction 1 as [|a l Ha Hl IH]; simpl; [constructor|].
  destruct (p a); [|exact IH]. constructor; [|exact IH].
  apply Forall_forall. intros b Hb. apply filter_In in Hb.
  rewrite Forall_forall in Ha. now apply Ha.
Qed.

Lemma slot_ids_filter (keep : Slot -> bool) (rows : list Slot) :
  NoDup (map slot_id rows) -> NoDup (map slot_id (filter keep rows)).
Proof.
  intros Hnd. induction rows as [|x rows IH]; [constructor|].
  simpl in Hnd |- *. apply NoDup_cons_iff in Hnd. destruct Hnd as [Hx Hrows].
  destruct (keep x); [|exact (IH Hrows)].
  simpl. apply NoDup_cons; [|exact (IH Hrows)].
  rewrite in_map_iff. intros [y [Hy Hin]]. apply Hx. rewrite <- Hy. apply in_map.
  exact (proj1 (proj1 (filter_In _ _ _) Hin)).
Qed.

(** The booking update leaves the owner, date and interval of every row. *)
Definition same_place (a b : Slot) : Prop :=
  a.(faculty_id) = b.(faculty_id) /\ a.(date) = b.(date)
  /\ a.(start_time) = b.(start_time) /\ a.(end_time) = b.(end_time).

Lemma update_booked_place (sid sch : nat) (n link : option string) (s : Slot) :
  same_place ((fun s => if Nat.eqb s.(slot_id) sid then booked_row sch n link s else s) s) s.
Proof.
  unfold same_place. destruct (Nat.eqb (slot_id s) sid); repeat split.
Qed.

Lemma book_slot_db (db : DB) (r : BookReq) :
  snd (book_slot db r) = db
  \/ snd (book_slot db r)
     = update_booked db r.(bk_slot) r.(bk_user).(au_id) r.(bk_notes)
                     (createRealGoogleMeet r.(bk_prov) r.(bk_rnd)).
Proof.
  unfold book_slot. destruct (fetch_available _ _); [|now left].
  right. destruct (fetch_by_id _ _); reflexivity.
Qed.

Lemma delete_slot_db (db : DB) (user : AuthUser) (sid : nat) :
  snd (delete_slot db user sid) = db
  \/ snd (delete_slot db user sid)
     = with_slots db (filter (fun x => negb (Nat.eqb x.(slot_id) sid)) db.(slots)).
Proof.
  unfold delete_slot. destruct (single _) as [s|]; [|now left].
  destruct (status_eqb _ _); [now left|now right].
Qed.

Lemma update_booked_keeps (db : DB) (sid sch : nat) (n link : option string) :
  slots_disjoint db.(slots) -> slot_ids_ok db ->
  slots_disjoint (update_booked db sid sch n link).(slots)
  /\ slot_ids_ok (update_booked db sid sch n link).
Proof.
  intros Hd [Hnd Hlt]. split; [|split].
  - unfold update_booked. simpl. apply ForallOrdPairs_map_pres; [|exact Hd].
    intros a b H.
    destruct (update_booked_place sid sch n link a) as (Fa & Da & Sa & Ea).
    destruct (update_booked_place sid sch n link b) as (Fb & Db & Sb & Eb).
    unfold same_owner_day, disjoint_intervals in *.
    rewrite Fa, Da, Sa, Ea, Fb, Db, Sb, Eb. exact H.
  - now rewrite update_booked_ids.
  - intros s Hs. unfold update_booked in Hs. simpl in Hs. apply in_map_iff in Hs.
    destruct Hs as [s0 [<- Hs0]]. simpl.
    destruct (Nat.eqb (slot_id s0) sid); simpl; now apply Hlt.
Qed.

Lemma create_slot_ids_ok (tz : Z -> Z) (db : DB) (user : AuthUser) (st et d : Z) :
  slot_ids_ok db -> slot_ids_ok (snd (create_slot tz db user st et d)).
Proof.
  intros [Hnd Hlt]. unfold create_slot.
  destruct (et <=? st); [split; assumption|].
  destruct (overlap_query _ _ _ _ db); [|split; assumption].
  simpl. split.
  - simpl. rewrite map_app. simpl.
    apply (Permutation_NoDup (Permutation_cons_append _ _)). constructor; [|exact Hnd].
    intros Hin. apply in_map_iff in Hin. destruct Hin as [x [Hx Hin]].
    specialize (Hlt x Hin). lia.
  - intros s Hs. apply in_app_or in Hs. destruct Hs as [Hs|[<-|[]]].
    + specialize (Hlt s Hs). simpl. lia.
    + simpl. lia.
Qed.

Lemma apply_slot_op_keeps (tz : Z -> Z) (db : DB) (op : SlotOp) :
  slots_disjoint db.(slots) -> slot_ids_ok db ->
  slots_disjoint (apply_slot_op tz db op).(slots) /\ slot_ids_ok (apply_slot_op tz db op).
Proof.
  intros Hd Hok. destruct op as [u st et d|r|u sid]; simpl.
  - split; [now apply create_slot_keeps_disjoint|now apply create_slot_ids_ok].
  - destruct (book_slot_db db r) as [->| ->]; [now split|now apply update_booked_keeps].
  - destruct (delete_slot_db db u sid) as [->| ->]; [now split|].
    destruct Hok as [Hnd Hlt]. simpl. split; [|split].
    + now apply ForallOrdPairs_filter.
    + now apply slot_ids_filter.
    + intros s Hs. apply filter_In in Hs. now apply Hlt.
Qed.

(** X4: along any sequence of slot creations, bookings and deletions (each
    handled to completion before the next, whatever its outcome), two slots
    of the same faculty on the same date never overlap, and slot ids stay
    pairwise distinct and below the fresh-id counter, provided the table
    satisfies both at the start. *)
Theorem slot_ops_keep_invariants (tz : Z -> Z) (ops : list SlotOp) :
  forall db, slots_disjoint db.(slots) -> slot_ids_ok db ->
  slots_disjoint (run_slot_ops tz db ops).(slots) /\ slot_ids_ok (run_slot_ops tz db ops).
Proof.
  unfold run_slot_ops.
  induction ops as [|op ops IH]; intros db Hd Hok; simpl; [now split|].
  destruct (apply_slot_op_keeps tz db op Hd Hok) as [Hd' Hok']. now apply IH.
Qed.

Lemma slot_ops_keep_invariants_witness :
  let ops := [OpCreate (mkAuthUser 7 "f@x.com" "faculty") 32400000 36000000 0;
              OpBook (sample_req 3 10 ProvisionFail);
              OpCreate (mkAuthUser 7 "f@x.com" "faculty") 34200000 37800000 0;
              OpDelete (mkAuthUser 7 "f@x.com" "faculty") 10] in
  slots_disjoint (run_slot_ops (fun _ => 0) (sample_db []) ops).(slots)
  /\ slot_ids_ok (run_slot_ops (fun _ => 0) (sample_db []) ops).
Proof.
  apply slot_ops_keep_invariants.
  - constructor.
  - split; [constructor|intros s []].
Defined.

(** ** [my-bookings], [my-slots] and how they see the other handlers *)

Lemma in_sort_by_key (s : Slot) (l : list Slot) : In s (sort_by_key l) <-> In s l.
Proof.
  split; apply Permutation_in; [apply sort_by_key_perm|apply Permutation_sym, sort_by_key_perm].
Qed.

Lemma list_available_in (db : DB) (now : Z) (fq : option nat) (dq : option Z) (x : Slot) :
  In x (list_available db now fq dq) -> In x db.(slots) /\ x.(status) = available.
Proof.
  unfold list_available. rewrite in_sort_by_key. intros H.
  assert (H' : In x (filter (fun s => status_eqb s.(status) available
                                      && (date_only now <=? s.(date))) db.(slots))).
  { destruct fq, dq;
      [apply filter_In in H; destruct H as [H _]; apply filter_In in H; destruct H as [H _]
      |apply filter_In in H; destruct H as [H _]|apply filter_In in H; destruct H as [H _]|];
      exact H. }
  apply filter_In in H'. destruct H' as [Hin Hk]. apply Bool.andb_true_iff in Hk.
  split; [exact Hin|]. now apply status_eqb_eq.
Qed.

(** X6: after a successful booking of an available slot (slot ids unique),
    the booked row is in the booking scholar's [my-bookings] and in the
    owning faculty's [my-slots], and no listing of available slots, whatever
    its date, faculty and query parameters, shows a slot with that id. *)
Theorem book_then_listings (db : DB) (r : BookReq) (s : Slot) :
  NoDup (map slot_id db.(slots)) -> In s db.(slots) -> s.(slot_id) = r.(bk_slot) ->
  s.(status) = available ->
  let link := createRealGoogleMeet r.(bk_prov) r.(bk_rnd) in
  let b := booked_row r.(bk_user).(au_id) r.(bk_notes) link s in
  let db' := snd (book_slot db r) in
  fst (book_slot db r) = Ok (mkBookResp b link)
  /\ In b (my_bookings db' r.(bk_user))
  /\ (forall fac : AuthUser, fac.(au_id) = s.(faculty_id) -> In b (my_slots db' fac))
  /\ (forall now fq dq x, In x (list_available db' now fq dq) -> x.(slot_id) <> s.(slot_id)).
Proof.
  intros Hnd Hin Hid Ha link b db'.
  destruct (book_slot_available db r s Hnd Hin Hid Ha) as (Hb & Hbin & _).
  subst db'. rewrite Hb. simpl. fold link in Hbin |- *. fold b in Hbin |- *.
  split; [reflexivity|split; [|split]].
  - unfold my_bookings. rewrite in_sort_by_key, filter_In. split; [exact Hbin|].
    simpl. apply Nat.eqb_refl.
  - intros fac Hf. unfold my_slots. rewrite in_sort_by_key, filter_In. split; [exact Hbin|].
    simpl. rewrite Hf. apply Nat.eqb_refl.
  - intros now fq dq x Hx E. apply list_available_in in Hx. destruct Hx as [Hx Hxa].
    unfold update_booked in Hx. simpl in Hx. apply in_map_iff in Hx.
    destruct Hx as [x0 [Hx0 _]].
    destruct (Nat.eqb_spec (slot_id x0) (bk_slot r)) as [E0|E0].
    + subst x. simpl in Hxa. discriminate.
    + subst x. apply E0. rewrite E. exact Hid.
Qed.

Lemma book_then_listings_witness :
  let db := sample_db [sample_slot 1 7 available; sample_slot 2 7 available] in
  let r := sample_req 3 1 (ProvisionOk (Some "https://meet.google.com/abc-defg-hij"%string)) in
  let s := sample_slot 1 7 available in
  let link := createRealGoogleMeet r.(bk_prov) r.(bk_rnd) in
  let b := booked_row r.(bk_user).(au_id) r.(bk_notes) link s in
  let db' := snd (book_slot db r) in
  fst (book_slot db r) = Ok (mkBookResp b link)
  /\ In b (my_bookings db' r.(bk_user))
  /\ (forall fac : AuthUser, fac.(au_id) = s.(faculty_id) -> In b (my_slots db' fac))
  /\ (forall now fq dq x, In x (list_available db' now fq dq) -> x.(slot_id) <> s.(slot_id)).
Proof.
  apply (book_then_listings (sample_db [sample_slot 1 7 available; sample_slot 2 7 available])
           (sample_req 3 1 (ProvisionOk (Some "https://meet.google.com/abc-defg-hij"%string)))
           (sample_slot 1 7 available)).
  - simpl. repeat constructor; simpl; intuition discriminate.
  - now left.
  - reflexivity.
  - reflexivity.
Defined.

(** X7: a slot the creation handler returns is stored: it is in the
    creator's [my-slots], in nobody's [my-bookings], and in the listing of
    available slots (unfiltered, or filtered by its faculty or its date) of
    any day up to its date. *)
Theorem create_then_listings (tz : Z -> Z) (db : DB) (user : AuthUser) (st et d : Z) (s : Slot) :
  fst (create_slot tz db user st et d) = Ok s ->
  let db' := snd (create_slot tz db user st et d) in
  In s (my_slots db' user)
  /\ (forall v, ~ In s (my_bookings db' v))
  /\ (forall now fq dq, date_only now <= s.(date) ->
        (fq = None \/ fq = Some user.(au_id)) -> (dq = None \/ dq = Some s.(date)) ->
        In s (list_available db' now fq dq)).
Proof.
  unfold create_slot. cbv zeta.
  destruct (et <=? st); [discriminate|].
  destruct (overlap_query _ _ _ _ db); [|discriminate].
  simpl. intros H. injection H as <-.
  assert (Hin : In (mkSlot (next_id db) (au_id user) None (date_only d) (time_only tz st)
                           (time_only tz et) available None None)
                   (slots db ++ [mkSlot (next_id db) (au_id user) None (date_only d)
                                  (time_only tz st) (time_only tz et) available None None]))
    by (apply in_or_app; right; now left).
  split; [|split].
  - unfold my_slots. rewrite in_sort_by_key, filter_In. simpl. rewrite Nat.eqb_refl. auto.
  - intros v. unfold my_bookings. rewrite in_sort_by_key, filter_In. simpl.
    intros [_ H]; discriminate.
  - intros now fq dq Hd Hf Hq. unfold list_available. rewrite in_sort_by_key.
    simpl in Hd.
    assert (Hk : Z.leb (date_only now) (date_only d) = true) by now apply Z.leb_le.
    destruct Hf as [->| ->], Hq as [->| ->]; rewrite ?filter_In; simpl;
      rewrite ?Hk, ?Nat.eqb_refl, ?Z.eqb_refl; simpl; auto.
Qed.

Lemma create_then_listings_witness :
  let s := mkSlot 10 7 None 0 32400 36000 available None None in
  let db' := snd (create_slot (fun _ => 0) (sample_db []) (mkAuthUser 7 "f@x.com" "faculty")
                    32400000 36000000 0) in
  In s (my_slots db' (mkAuthUser 7 "f@x.com" "faculty"))
  /\ (forall v, ~ In s (my_bookings db' v))
  /\ (forall now fq dq, date_only now <= s.(date) ->
        (fq = None \/ fq = Some 7%nat) -> (dq = None \/ dq = Some s.(date)) ->
        In s (list_available db' now fq dq)).
Proof.
  apply (create_then_listings (fun _ => 0) (sample_db []) (mkAuthUser 7 "f@x.com" "faculty")
           32400000 36000000 0 (mkSlot 10 7 None 0 32400 36000 available None None)).
  vm_compute. reflexivity.
Defined.

(** ** [get_user_role] and [set_user_role] *)

Lemma ur_upsert_rows_other (e e' r : string) (db : DB) :
  e' <> e ->
  filter (fun x => emails_eqb x.(rr_email) e') (ur_upsert e r db).(user_roles)
  = filter (fun x => emails_eqb x.(rr_email) e') db.(user_roles).
Proof.
  intros Hne. unfold ur_upsert, sync_user_role. simpl.
  assert (He : emails_eqb e e' = false) by (apply String.eqb_neq; congruence).
  destruct (existsb _ _).
  - induction (user_roles db) as [|x rows IH]; simpl; [reflexivity|].
    destruct (emails_eqb (rr_email x) e) eqn:Ex; simpl.
    + unfold emails_eqb in Ex. apply String.eqb_eq in Ex.
      rewrite He. unfold emails_eqb at 1. rewrite Ex. fold (emails_eqb e e'). rewrite He.
      exact IH.
    + destruct (emails_eqb (rr_email x) e'); [f_equal|]; exact IH.
  - rewrite filter_app. simpl. rewrite He. apply app_nil_r.
Qed.

Lemma ur_upsert_nodup (e r : string) (db : DB) :
  NoDup (map rr_email db.(user_roles)) -> NoDup (map rr_email (ur_upsert e r db).(user_roles)).
Proof.
  intros Hnd. unfold ur_upsert, sync_user_role. simpl.
  destruct (existsb (fun x => emails_eqb x.(rr_email) e) (user_roles db)) eqn:Ex.
  - rewrite map_map.
    erewrite map_ext; [exact Hnd|]. intros x. simpl.
    destruct (emails_eqb (rr_email x) e) eqn:E; [|reflexivity].
    symmetry. now apply String.eqb_eq.
  - rewrite map_app. simpl. apply (Permutation_NoDup (Permutation_cons_append _ _)).
    constructor; [|exact Hnd]. intros Hin. apply in_map_iff in Hin.
    destruct Hin as [x [Hx Hin]].
    assert (existsb (fun x => emails_eqb x.(rr_email) e) (user_roles db) = true).
    { apply existsb_exists. exists x. split; [exact Hin|]. unfold emails_eqb.
      now apply String.eqb_eq. }
    congruence.
Qed.

(** X8: [set_user_role] with a role outside ['scholar'], ['faculty'],
    ['admin'] is refused by the column check; with a valid role it succeeds,
    and then [get_user_role] returns that role for the email and the same
    role as before for every other email, and emails stay unique in
    [user_roles].  An email without a row reads as ['scholar']. *)
Theorem set_get_user_role (db : DB) (e r : string) :
  NoDup (map rr_email db.(user_roles)) ->
  (valid_role r = false -> set_user_role e r db = None)
  /\ (valid_role r = true ->
      exists db', set_user_role e r db = Some db'
                  /\ get_user_role db' e = r
                  /\ (forall e', e' <> e -> get_user_role db' e' = get_user_role db e')
                  /\ NoDup (map rr_email db'.(user_roles)))
  /\ ((forall x, In x db.(user_roles) -> x.(rr_email) <> e) ->
      get_user_role db e = "scholar"%string).
Proof.
  intros Hnd. unfold set_user_role. split; [|split].
  - intros V. now rewrite V.
  - intros V. rewrite V. eexists. split; [reflexivity|]. split; [|split].
    + unfold get_user_role. now rewrite ur_upsert_rows.
    + intros e' Hne. unfold get_user_role. now rewrite ur_upsert_rows_other.
    + now apply ur_upsert_nodup.
  - intros H. unfold get_user_role. rewrite filter_none; [reflexivity|].
    intros x Hx. apply String.eqb_neq. exact (H x Hx).
Qed.

Lemma set_get_user_role_witness :
  let db := mkDB [] [mkRoleRow "a@x.com" "admin"; mkRoleRow "b@x.com" "scholar"] [] 1 in
  (valid_role "teacher" = false -> set_user_role "b@x.com" "teacher" db = None)
  /\ (valid_role "faculty" = true ->
      exists db', set_user_role "b@x.com" "faculty" db = Some db'
                  /\ get_user_role db' "b@x.com" = "faculty"%string
                  /\ (forall e', e' <> "b@x.com"%string ->
                                 get_user_role db' e' = get_user_role db e')
                  /\ NoDup (map rr_email db'.(user_roles)))
  /\ ((forall x, In x db.(user_roles) -> x.(rr_email) <> "b@x.com"%string) ->
      get_user_role db "b@x.com" = "scholar"%string).
Proof.
  intros db. split; [|split].
  - apply (set_get_user_role db "b@x.com" "teacher").
    simpl. repeat constructor; simpl; intuition discriminate.
  - apply (set_get_user_role db "b@x.com" "faculty").
    simpl. repeat constructor; simpl; intuition discriminate.
  - apply (set_get_user_role db "b@x.com" "scholar").
    simpl. repeat constructor; simpl; intuition discriminate.
Defined.

(** ** Login and the role stores *)

Lemma sync_role_to_user_roles_nodup (L : list User) :
  forall db, NoDup (map rr_email db.(user_roles)) ->
  NoDup (map rr_email (sync_role_to_user_roles L db).(user_roles)).
Proof.
  induction L as [|u L IH]; intros db H; simpl; [exact H|]. now apply IH, ur_upsert_nodup.
Qed.

Lemma users_update_nodup (p : User -> bool) (f : User -> User) (db : DB) :
  NoDup (map rr_email db.(user_roles)) ->
  NoDup (map rr_email (users_update p f db).(user_roles)).
Proof. intros H. unfold users_update. now apply sync_role_to_user_roles_nodup. Qed.

Lemma ur_insert_fresh (e r : string) (db : DB) :
  existsb (fun x => emails_eqb x.(rr_email) e) db.(user_roles) = false ->
  ur_insert e r db = ur_upsert e r db.
Proof. intros H. unfold ur_insert, ur_upsert. now rewrite H. Qed.

Lemma users_insert_some (u : User) (db db' : DB) :
  users_insert u db = Some db' ->
  db' = mkDB (db.(users) ++ [u]) db.(user_roles) db.(slots) db.(next_id).
Proof. unfold users_insert. destruct (existsb _ _); congruence. Qed.

Lemma single_some {A} (l : list A) (x : A) : single l = Some x -> l = [x].
Proof. destruct l as [|a [|b l]]; simpl; congruence. Qed.

(** The two halves of the login handler: the role lookup (or default
    assignment), then the [users] insert or refresh. *)
Definition login_role_step (db : DB) (e : string) : string * DB :=
  match single (filter (fun x => emails_eqb x.(rr_email) e) db.(user_roles)) with
  | Some rd => (rd.(rr_role), db)
  | None => ("scholar"%string, ur_insert e "scholar" db)
  end.

Definition login_user_step (db1 : DB) (p : GooglePayload) (userRole : string)
  : Outcome User * DB :=
  let e := p.(gp_email) in
  match single (filter (fun u => emails_eqb u.(email) e) db1.(users)) with
  | None =>
      let nu := mkUser db1.(next_id) e p.(gp_name) p.(gp_picture) p.(gp_sub) userRole in
      match users_insert nu (mkDB db1.(users) db1.(user_roles) db1.(slots) (S db1.(next_id))) with
      | None => (Err 500 "Authentication failed", db1)
      | Some db2 => (Ok nu, db2)
      end
  | Some u =>
      if google_id_taken p u db1.(users) then (Err 500 "Authentication failed", db1)
      else
      let db2 := users_update (fun x => Nat.eqb x.(user_id) u.(user_id))
                              (refresh_profile p userRole) db1 in
      match single (filter (fun x => Nat.eqb x.(user_id) u.(user_id)) db2.(users)) with
      | None => (Err 500 "Authentication failed", db2)
      | Some u' => (Ok u', db2)
      end
  end.

Lemma auth_google_split (db : DB) (p : GooglePayload) :
  auth_google db p
  = let '(userRole, db1) := login_role_step db p.(gp_email) in login_user_step db1 p userRole.
Proof. reflexivity. Qed.

Lemma login_role_step_keeps (db : DB) (e : string) :
  NoDup (map rr_email db.(user_roles)) -> roles_mirrored db ->
  let '(userRole, db1) := login_role_step db e in
  roles_mirrored db1 /\ NoDup (map rr_email db1.(user_roles))
  /\ (forall x, In x db1.(user_roles) -> x.(rr_email) = e -> x.(rr_role) = userRole).
Proof.
  intros Hnd Hm. unfold login_role_step.
  destruct (single _) as [rd|] eqn:Hs.
  - apply single_some in Hs. split; [exact Hm|split; [exact Hnd|]].
    intros x Hx Hxe.
    assert (In x [rd]) as [<-|[]]; [|reflexivity].
    rewrite <- Hs. apply filter_In. split; [exact Hx|]. unfold emails_eqb.
    now apply String.eqb_eq.
  - destruct (existsb (fun x => emails_eqb x.(rr_email) e) db.(user_roles)) eqn:Ex.
    + exfalso. destruct (rows_email_at_most_one e _ Hnd) as [H|[x H]].
      * apply existsb_exists in Ex. destruct Ex as [x [Hx Hxe]].
        assert (In x (filter (fun x => emails_eqb x.(rr_email) e) db.(user_roles)))
          by (apply filter_In; auto).
        rewrite H in *. contradiction.
      * rewrite H in Hs. discriminate.
    + rewrite ur_insert_fresh by exact Ex.
      split; [now apply ur_upsert_mirrored|split; [now apply ur_upsert_nodup|]].
      intros x Hx Hxe.
      assert (In x [mkRoleRow e "scholar"]) as [<-|[]]; [|reflexivity].
      rewrite <- (ur_upsert_rows e "scholar" db Hnd). apply filter_In. split; [exact Hx|].
      unfold emails_eqb. now apply String.eqb_eq.
Qed.

Lemma login_user_step_keeps (db1 : DB) (p : GooglePayload) (userRole : string) :
  roles_mirrored db1 -> NoDup (map rr_email db1.(user_roles)) ->
  (forall x, In x db1.(user_roles) -> x.(rr_email) = p.(gp_email) -> x.(rr_role) = userRole) ->
  roles_mirrored (snd (login_user_step db1 p userRole))
  /\ NoDup (map rr_email (snd (login_user_step db1 p userRole)).(user_roles)).
Proof.
  intros Hm Hnd Hr. unfold login_user_step.
  destruct (single _) as [u|].
  - destruct (google_id_taken p u db1.(users)); [split; assumption|].
    assert (H2 : roles_mirrored (users_update (fun x => Nat.eqb x.(user_id) u.(user_id))
                                   (refresh_profile p userRole) db1))
      by (apply users_update_mirrored; [reflexivity|exact Hm]).
    assert (H3 := users_update_nodup (fun x => Nat.eqb x.(user_id) u.(user_id))
                    (refresh_profile p userRole) db1 Hnd).
    destruct (single _); split; assumption.
  - destruct (users_insert _ _) as [db2|] eqn:Hi; [|split; assumption].
    apply users_insert_some in Hi. subst db2. simpl. split; [|exact Hnd].
    intros v x Hv Hx Hvx. simpl in Hv, Hx. apply in_app_or in Hv.
    destruct Hv as [Hv|[<-|[]]]; [now apply Hm|].
    simpl in *. symmetry. apply Hr; [exact Hx|]. now symmetry.
Qed.

(** X9: a login keeps the two role stores in agreement (every [users] row
    and [user_roles] row of the same email carry the same role) and keeps
    the emails of [user_roles] unique, whatever its outcome. *)
Theorem auth_google_keeps_roles (db : DB) (p : GooglePayload) :
  NoDup (map rr_email db.(user_roles)) -> roles_mirrored db ->
  roles_mirrored (snd (auth_google db p))
  /\ NoDup (map rr_email (snd (auth_google db p)).(user_roles)).
Proof.
  intros Hnd Hm. rewrite auth_google_split.
  pose proof (login_role_step_keeps db (gp_email p) Hnd Hm) as H.
  destruct (login_role_step db (gp_email p)) as [userRole db1].
  destruct H as (H1 & H2 & H3). now apply login_user_step_keeps.
Qed.

Lemma auth_google_keeps_roles_witness :
  let p := mkGooglePayload "f@x.com" "F" None "g2" in
  roles_mirrored (snd (auth_google mirror_db p))
  /\ NoDup (map rr_email (snd (auth_google mirror_db p)).(user_roles)).
Proof.
  apply auth_google_keeps_roles.
  - simpl. repeat constructor; simpl; intuition discriminate.
  - unfold roles_mirrored; simpl; intros u x [<-|[<-|[]]] [<-|[<-|[]]];
      simpl; intros E; try reflexivity; discriminate.
Defined.

(** ** A role change takes effect at the next login *)

Definition ukey (u : User) : nat * string := (u.(user_id), u.(email)).

Lemma set_role_of_email_keys (e r : string) (us : list User) :
  map ukey (set_role_of_email e r us) = map ukey us.
Proof.
  unfold set_role_of_email. rewrite map_map. apply map_ext. intros u.
  destruct (emails_eqb _ _); reflexivity.
Qed.

Lemma sync_role_to_user_roles_keys (L : list User) :
  forall db, map ukey (sync_role_to_user_roles L db).(users) = map ukey db.(users).
Proof.
  induction L as [|v L IH]; intros db; simpl; [reflexivity|].
  rewrite IH. unfold ur_upsert, sync_user_role. simpl. apply set_role_of_email_keys.
Qed.

Lemma users_update_keys (p : User -> bool) (f : User -> User) (db : DB) :
  (forall u, ukey (f u) = ukey u) ->
  map ukey (users_update p f db).(users) = map ukey db.(users).
Proof.
  intros Hf. unfold users_update. rewrite sync_role_to_user_roles_keys. simpl.
  rewrite map_map. apply map_ext. intros u. destruct (p u); [apply Hf|reflexivity].
Qed.

Lemma in_set_role_of_email_key (e r : string) (us : list User) (u : User) :
  In u (set_role_of_email e r us) ->
  exists u0, In u0 us /\ ukey u = ukey u0 /\ (u.(role) = r \/ u = u0).
Proof.
  unfold set_role_of_email. intros H. apply in_map_iff in H. destruct H as [u0 [<- Hin]].
  exists u0. split; [exact Hin|]. destruct (emails_eqb _ _); [|auto].
  split; [reflexivity|now left].
Qed.

Lemma sync_role_to_user_roles_in (r : string) (L : list User) :
  (forall v, In v L -> v.(role) = r) ->
  forall db u, In u (sync_role_to_user_roles L db).(users) ->
  exists u0, In u0 db.(users) /\ ukey u = ukey u0 /\ (u.(role) = r \/ u = u0).
Proof.
  induction L as [|v L IH]; intros HL db u Hu; simpl in Hu.
  - exists u. auto.
  - destruct (IH (fun w Hw => HL w (or_intror Hw)) _ _ Hu) as (u1 & Hu1 & K1 & R1).
    unfold ur_upsert, sync_user_role in Hu1. simpl in Hu1.
    destruct (in_set_role_of_email_key _ _ _ _ Hu1) as (u0 & Hu0 & K0 & R0).
    exists u0. split; [exact Hu0|]. split; [congruence|].
    rewrite (HL v (or_introl eq_refl)) in R0.
    destruct R1 as [R1| ->]; [now left|exact R0].
Qed.

Lemma users_update_in_role (p : User -> bool) (f : User -> User) (r : string) (db : DB) (u : User) :
  (forall w, ukey (f w) = ukey w) -> (forall w, (f w).(role) = r) ->
  In u (users_update p f db).(users) ->
  exists u0, In u0 db.(users) /\ ukey u = ukey u0 /\ (p u0 = true -> u.(role) = r).
Proof.
  intros Hk Hr Hu. unfold users_update in Hu.
  destruct (sync_role_to_user_roles_in r _ ltac:(intros v Hv; apply in_map_iff in Hv;
                                                   destruct Hv as [w [<- _]]; apply Hr)
              _ _ Hu) as (u1 & Hu1 & K1 & R1).
  simpl in Hu1. apply in_map_iff in Hu1. destruct Hu1 as [u0 [Hu1 Hu0]].
  exists u0. split; [exact Hu0|]. destruct (p u0) eqn:Pu0.
  - subst u1. split; [rewrite K1; apply Hk|]. intros _. destruct R1 as [R1| ->]; [exact R1|].
    apply Hr.
  - subst u1. split; [exact K1|discriminate].
Qed.

Lemma sync_role_to_user_roles_rows (e r : string) (L : list User) :
  (forall v, In v L -> v.(email) = e -> v.(role) = r) ->
  forall db, NoDup (map rr_email db.(user_roles)) ->
  filter (fun x => emails_eqb x.(rr_email) e) db.(user_roles) = [mkRoleRow e r] ->
  filter (fun x => emails_eqb x.(rr_email) e) (sync_role_to_user_roles L db).(user_roles)
  = [mkRoleRow e r].
Proof.
  induction L as [|v L IH]; intros HL db Hnd Hf; simpl; [exact Hf|].
  apply IH; [intros w Hw; apply HL; now right|now apply ur_upsert_nodup|].
  destruct (String.eqb_spec (email v) e) as [Ev|Ev].
  - rewrite (HL v (or_introl eq_refl) Ev), Ev. apply ur_upsert_rows, Hnd.
  - rewrite ur_upsert_rows_other by congruence. exact Hf.
Qed.

Lemma users_update_rows (p : User -> bool) (f : User -> User) (e r : string) (db : DB) :
  (forall w, (f w).(role) = r) -> NoDup (map rr_email db.(user_roles)) ->
  filter (fun x => emails_eqb x.(rr_email) e) db.(user_roles) = [mkRoleRow e r] ->
  filter (fun x => emails_eqb x.(rr_email) e) (users_update p f db).(user_roles)
  = [mkRoleRow e r].
Proof.
  intros Hr Hnd Hf. unfold users_update. apply sync_role_to_user_roles_rows; [|exact Hnd|exact Hf].
  intros v Hv _. apply in_map_iff in Hv. destruct Hv as [w [<- _]]. apply Hr.
Qed.

Lemma filter_unique_key {A B} (k : A -> B) (eqb : B -> B -> bool) (l : list A) (x : A) :
  (forall a b, eqb a b = true <-> a = b) -> NoDup (map k l) -> In x l ->
  filter (fun y => eqb (k y) (k x)) l = [x].
Proof.
  intros Heq. induction l as [|a l IH]; intros Hnd Hin; [contradiction|].
  simpl in Hnd. inversion Hnd as [|? ? Hnot Hnd']; subst. simpl.
  destruct Hin as [<-|Hin].
  - rewrite (proj2 (Heq _ _) eq_refl). f_equal. apply filter_none.
    intros y Hy. destruct (eqb (k y) (k a)) eqn:E; [|reflexivity].
    exfalso. apply Hnot. apply Heq in E. rewrite <- E. now apply in_map.
  - destruct (eqb (k a) (k x)) eqn:E.
    + exfalso. apply Hnot. apply Heq in E. rewrite E. now apply in_map.
    + now apply IH.
Qed.

Lemma map_ukey_fst (us : list User) : map user_id us = map fst (map ukey us).
Proof. now rewrite map_map. Qed.

Lemma map_ukey_snd (us : list User) : map email us = map snd (map ukey us).
Proof. now rewrite map_map. Qed.

Lemma serial_bookings_one_success_witness :
  exists resp, fst (run_books (sample_db [sample_slot 1 7 available])
                              [sample_req 3 1 ProvisionFail; sample_req 4 1 ProvisionFail])
               = Ok resp :: map (fun _ => Err 404 "Slot not available")
                                [sample_req 4 1 ProvisionFail].
Proof.
  apply (serial_bookings_one_success (sample_db [sample_slot 1 7 available])
           (sample_slot 1 7 available) (sample_req 3 1 ProvisionFail)
           [sample_req 4 1 ProvisionFail]).
  - simpl. repeat constructor. intros [].
  - now left.
  - reflexivity.
  - repeat constructor.
Defined.

(** ** A returning user's login *)

Definition profile (u : User) : nat * string * string * option string * string :=
  (u.(user_id), u.(email), u.(name), u.(picture), u.(google_id)).

Lemma map_profile_factor {A} (h : User -> A) (g : nat * string * string * option string * string -> A)
  (us1 us2 : list User) :
  (forall u, h u = g (profile u)) -> map profile us1 = map profile us2 -> map h us1 = map h us2.
Proof.
  intros Hg E. rewrite (map_ext _ _ Hg), (map_ext _ _ Hg), <- !(map_map profile g), E.
  reflexivity.
Qed.

Lemma sync_role_to_user_roles_profile (L : list User) :
  forall db, map profile (sync_role_to_user_roles L db).(users) = map profile db.(users).
Proof.
  induction L as [|v L IH]; intros db; simpl; [reflexivity|].
  rewrite IH. unfold ur_upsert, sync_user_role, set_role_of_email. simpl.
  rewrite map_map. apply map_ext. intros u. destruct (emails_eqb _ _); reflexivity.
Qed.

Lemma users_update_profile (p : User -> bool) (f : User -> User) (db : DB) :
  map profile (users_update p f db).(users)
  = map profile (map (fun u => if p u then f u else u) db.(users)).
Proof. unfold users_update. apply sync_role_to_user_roles_profile. Qed.

Lemma ur_insert_profile (e r : string) (db : DB) :
  map profile (ur_insert e r db).(users) = map profile db.(users).
Proof.
  unfold ur_insert. destruct (existsb _ _); [reflexivity|].
  unfold sync_user_role, set_role_of_email. simpl.
  rewrite map_map. apply map_ext. intros u. destruct (emails_eqb _ _); reflexivity.
Qed.

Lemma login_role_step_role (db : DB) (e : string) :
  NoDup (map rr_email db.(user_roles)) ->
  fst (login_role_step db e) = get_user_role db e
  /\ map profile (snd (login_role_step db e)).(users) = map profile db.(users).
Proof.
  intros Hnd. unfold login_role_step, get_user_role.
  destruct (rows_email_at_most_one e _ Hnd) as [H|[x H]]; rewrite H; simpl.
  - split; [reflexivity|apply ur_insert_profile].
  - split; reflexivity.
Qed.


Lemma ur_upsert_profile (e r : string) (db : DB) :
  map profile (ur_upsert e r db).(users) = map profile db.(users).
Proof.
  unfold ur_upsert, sync_user_role, set_role_of_email. simpl.
  rewrite map_map. apply map_ext. intros u. destruct (emails_eqb _ _); reflexivity.
Qed.

Lemma google_id_free (p : GooglePayload) (u : User) (us us0 : list User) :
  map profile us = map profile us0 ->
  (forall v, In v us0 -> v.(google_id) = p.(gp_sub) -> v.(user_id) = u.(user_id)) ->
  google_id_taken p u us = false.
Proof.
  intros P H. unfold google_id_taken. apply Bool.not_true_iff_false. intros Ex.
  apply existsb_exists in Ex. destruct Ex as [x [Hx Cx]].
  apply Bool.andb_true_iff in Cx. destruct Cx as [C1 C2].
  apply Bool.negb_true_iff, Nat.eqb_neq in C1. apply String.eqb_eq in C2.
  assert (Hp : In (profile x) (map profile us0)) by (rewrite <- P; now apply in_map).
  apply in_map_iff in Hp. destruct Hp as [x0 [K0 Hx0]].
  unfold profile in K0. injection K0 as I0 _ _ _ G0.
  apply C1. rewrite <- I0. apply H; [exact Hx0|congruence].
Qed.

(** X12: with the schema's unique emails and user ids, the login of an email
    that already has a [users] row, and whose Google id no other row holds,
    creates no row: the user table keeps its ids and emails, and the handler
    returns that user's row with the name and Google id of the token, the
    token's picture (the stored one when the token has none) and the role
    [get_user_role] gives for the email. *)
Theorem returning_user_login (db : DB) (u : User) (p : GooglePayload) :
  NoDup (map rr_email db.(user_roles)) -> NoDup (map user_id db.(users)) ->
  NoDup (map email db.(users)) ->
  (forall v, In v db.(users) -> v.(google_id) = p.(gp_sub) -> v.(user_id) = u.(user_id)) ->
  In u db.(users) -> p.(gp_email) = u.(email) ->
  exists u' db', auth_google db p = (Ok u', db')
                 /\ u' = mkUser u.(user_id) u.(email) p.(gp_name)
                           (match p.(gp_picture) with Some pic => Some pic | None => u.(picture) end)
                           p.(gp_sub) (get_user_role db u.(email))
                 /\ map ukey db'.(users) = map ukey db.(users).
Proof.
  intros Hr Hid Hem Hg Hu Hp.
  rewrite auth_google_split.
  destruct (login_role_step_role db (gp_email p) Hr) as [R1 P1].
  destruct (login_role_step db (gp_email p)) as [userRole db1]. simpl in R1, P1.
  rewrite Hp in R1. subst userRole.
  assert (Hid1 : NoDup (map user_id db1.(users)))
    by (rewrite (map_profile_factor user_id (fun x => fst (fst (fst (fst x)))) _ _
                   (fun _ => eq_refl) P1); exact Hid).
  assert (Hem1 : NoDup (map email db1.(users)))
    by (rewrite (map_profile_factor email (fun x => snd (fst (fst (fst x)))) _ _
                   (fun _ => eq_refl) P1); exact Hem).
  assert (Hk : In (profile u) (map profile db1.(users))) by (rewrite P1; now apply in_map).
  apply in_map_iff in Hk. destruct Hk as [u1 [Ku1 Hu1]].
  unfold profile in Ku1. injection Ku1 as I1 E1 _ Pc1 _.
  unfold login_user_step. rewrite Hp, <- E1.
  rewrite (filter_unique_key email emails_eqb _ u1 String.eqb_eq Hem1 Hu1). simpl.
  rewrite E1.
  rewrite (google_id_free p u1 _ _ P1) by (rewrite I1; exact Hg).
  set (g := fun x => if Nat.eqb x.(user_id) u1.(user_id)
                     then refresh_profile p (get_user_role db (email u)) x else x).
  set (db3 := users_update (fun x => Nat.eqb x.(user_id) u1.(user_id))
                (refresh_profile p (get_user_role db (email u))) db1).
  assert (P3 : map profile db3.(users) = map profile (map g db1.(users)))
    by apply users_update_profile.
  assert (Ig : map user_id (map g db1.(users)) = map user_id db1.(users)).
  { rewrite map_map. apply map_ext. intros x. unfold g. now destruct (Nat.eqb _ _). }
  assert (I3 : map user_id db3.(users) = map user_id db1.(users)).
  { rewrite <- Ig. exact (map_profile_factor user_id (fun x => fst (fst (fst (fst x)))) _ _
                             (fun _ => eq_refl) P3). }
  assert (Hin3 : In (user_id u1) (map user_id db3.(users))) by (rewrite I3; now apply in_map).
  apply in_map_iff in Hin3. destruct Hin3 as [u3 [Iu3 Hu3]].
  assert (Hid3 : NoDup (map user_id db3.(users))) by now rewrite I3.
  rewrite <- Iu3, (filter_unique_key user_id Nat.eqb _ u3 Nat.eqb_eq Hid3 Hu3). simpl.
  exists u3, db3. split; [reflexivity|split].
  - assert (Hp3 : In (profile u3) (map profile (map g db1.(users))))
      by (rewrite <- P3; now apply in_map).
    rewrite map_map in Hp3. apply in_map_iff in Hp3. destruct Hp3 as [w [Kw Hw]].
    assert (Iw : user_id w = user_id u1).
    { unfold g in Kw. destruct (Nat.eqb_spec (user_id w) (user_id u1)) as [E|E]; [exact E|].
      unfold profile in Kw. injection Kw as Kw _ _ _ _. congruence. }
    assert (Hwu : w = u1).
    { assert (Hf := filter_unique_key user_id Nat.eqb _ u1 Nat.eqb_eq Hid1 Hu1).
      assert (Hw' : In w (filter (fun y => Nat.eqb (user_id y) (user_id u1)) db1.(users)))
        by (apply filter_In; split; [exact Hw|now apply Nat.eqb_eq]).
      rewrite Hf in Hw'. destruct Hw' as [<-|[]]. reflexivity. }
    subst w. unfold g in Kw. rewrite Nat.eqb_refl in Kw. unfold profile in Kw. simpl in Kw.
    injection Kw as K1 K2 K3 K4 K5.
    destruct (users_update_in_role (fun x => Nat.eqb x.(user_id) u1.(user_id))
                (refresh_profile p (get_user_role db (email u))) (get_user_role db (email u))
                db1 u3 (fun _ => eq_refl) (fun _ => eq_refl) Hu3) as (u0 & _ & K0 & R0).
    assert (Hr3 : role u3 = get_user_role db (email u)).
    { apply R0. injection K0 as I0 _. apply Nat.eqb_eq. congruence. }
    destruct u3 as [i e n pc gid rl]. simpl in *. subst.
    destruct (gp_picture p); congruence.
  - assert (Hk1 : forall x, ukey x
                            = (fun y => (fst (fst (fst (fst y))), snd (fst (fst (fst y)))))
                                (profile x)) by reflexivity.
    rewrite (map_profile_factor ukey _ _ _ Hk1 P3), <- (map_profile_factor ukey _ _ _ Hk1 P1).
    rewrite map_map. apply map_ext. intros x. unfold g. destruct (Nat.eqb _ _); reflexivity.
Qed.

Lemma returning_user_login_witness :
  exists u' db', auth_google mirror_db (mkGooglePayload "f@x.com" "Fay" None "g2b") = (Ok u', db')
                 /\ u' = mkUser 2 "f@x.com" "Fay" None "g2b" (get_user_role mirror_db "f@x.com")
                 /\ map ukey db'.(users) = map ukey mirror_db.(users).
Proof.
  apply (returning_user_login mirror_db (mkUser 2 "f@x.com" "F" None "g2" "scholar")
           (mkGooglePayload "f@x.com" "Fay" None "g2b")).
  - simpl. repeat constructor; simpl; intuition discriminate.
  - simpl. repeat constructor; simpl; intuition discriminate.
  - simpl. repeat constructor; simpl; intuition discriminate.
  - simpl. intros v Hv Hgv. repeat destruct Hv as [<-|Hv]; simpl in *; try discriminate; try reflexivity; contradiction.
  - simpl. auto.
  - reflexivity.
Defined.

(** X11: with the schema's unique [email] (both tables) and unique user ids,
    after an admin's successful role change of user [userId] to [r], the
    next Google login with that user's email, whose Google id no other user
    row holds, succeeds, returns that same
    user with role [r], and leaves [get_user_role] of the email at [r]. *)
Theorem patch_role_then_login (db : DB) (admin : AuthUser) (userId : nat) (r : string)
  (u : User) (db' : DB) (p : GooglePayload) :
  NoDup (map rr_email db.(user_roles)) -> NoDup (map user_id db.(users)) ->
  NoDup (map email db.(users)) ->
  (forall v, In v db.(users) -> v.(google_id) = p.(gp_sub) -> v.(user_id) = userId) ->
  patch_role_handler db admin userId r = (Ok u, db') -> p.(gp_email) = u.(email) ->
  exists u' db'', auth_google db' p = (Ok u', db'')
                  /\ u'.(role) = r /\ u'.(user_id) = userId /\ u'.(email) = u.(email)
                  /\ get_user_role db'' u.(email) = r.
Proof.
  intros Hr Hid Hem Hg Hpatch Hp.
  assert (Kw : forall w, ukey (with_role r w) = ukey w) by reflexivity.
  assert (Kp : forall w, ukey (refresh_profile p r w) = ukey w) by reflexivity.
  unfold patch_role_handler in Hpatch.
  destruct (valid_role r) eqn:V; simpl in Hpatch; [|discriminate].
  destruct (Nat.eqb userId (au_id admin)); [discriminate|].
  destruct (single (filter (fun u => Nat.eqb u.(user_id) userId) db.(users))) as [t|] eqn:Ht;
    [|discriminate].
  apply single_some in Ht.
  set (db2 := users_update (fun u => Nat.eqb u.(user_id) userId) (with_role r)
                (ur_upsert (email t) r db)) in Hpatch.
  destruct (single (filter (fun u => Nat.eqb u.(user_id) userId) db2.(users))) as [u2|] eqn:Hu2;
    [|discriminate].
  injection Hpatch as <- <-. apply single_some in Hu2.
  assert (K2 : map ukey db2.(users) = map ukey db.(users)).
  { unfold db2. rewrite users_update_keys by exact Kw. unfold ur_upsert, sync_user_role.
    simpl. apply set_role_of_email_keys. }
  assert (Hid2 : NoDup (map user_id db2.(users))) by now rewrite map_ukey_fst, K2, <- map_ukey_fst.
  assert (Hem2 : NoDup (map email db2.(users))) by now rewrite map_ukey_snd, K2, <- map_ukey_snd.
  assert (Hu : In u2 (filter (fun u => Nat.eqb u.(user_id) userId) db2.(users)))
    by (rewrite Hu2; now left).
  apply filter_In in Hu. destruct Hu as [Hu Hu_id]. apply Nat.eqb_eq in Hu_id.
  assert (Het : email u2 = email t).
  { assert (Hk : In (ukey u2) (map ukey db.(users))) by (rewrite <- K2; now apply in_map).
    apply in_map_iff in Hk. destruct Hk as [t0 [Kt0 Ht0]].
    injection Kt0 as It0 Et0.
    assert (In t0 [t]) as [<-|[]]; [|congruence].
    rewrite <- Ht. apply filter_In. split; [exact Ht0|]. apply Nat.eqb_eq. congruence. }
  assert (Hnd2 : NoDup (map rr_email db2.(user_roles)))
    by (apply users_update_nodup, ur_upsert_nodup, Hr).
  assert (R2 : filter (fun x => emails_eqb x.(rr_email) (email t)) db2.(user_roles)
               = [mkRoleRow (email t) r])
    by (apply users_update_rows; [reflexivity|apply ur_upsert_nodup, Hr|apply ur_upsert_rows, Hr]).
  assert (P2 : map profile db2.(users) = map profile db.(users)).
  { unfold db2. rewrite users_update_profile, <- (ur_upsert_profile (email t) r db), map_map.
    apply map_ext.
    intros x. destruct (Nat.eqb _ _); reflexivity. }
  clearbody db2.
  rewrite auth_google_split. unfold login_role_step. rewrite Hp, Het, R2. simpl.
  unfold login_user_step. rewrite Hp, Het.
  rewrite <- Het, (filter_unique_key email emails_eqb _ u2 String.eqb_eq Hem2 Hu). simpl.
  rewrite (google_id_free p u2 _ _ P2) by (rewrite Hu_id; exact Hg).
  set (db3 := users_update (fun x => Nat.eqb x.(user_id) u2.(user_id)) (refresh_profile p r) db2).
  assert (K3 : map ukey db3.(users) = map ukey db2.(users)) by (apply users_update_keys, Kp).
  assert (Hid3 : NoDup (map user_id db3.(users))) by now rewrite map_ukey_fst, K3, <- map_ukey_fst.
  assert (Hk : In (ukey u2) (map ukey db3.(users))) by (rewrite K3; now apply in_map).
  apply in_map_iff in Hk. destruct Hk as [u3 [Ku3 Hu3]].
  injection Ku3 as Iu3 Eu3.
  rewrite <- Iu3, (filter_unique_key user_id Nat.eqb _ u3 Nat.eqb_eq Hid3 Hu3). simpl.
  exists u3, db3. split; [reflexivity|].
  destruct (users_update_in_role _ _ r db2 u3 Kp (fun _ => eq_refl) Hu3) as (u0 & _ & K0 & R0).
  split; [apply R0; injection K0 as I0 _; apply Nat.eqb_eq; congruence|].
  split; [congruence|split; [congruence|]].
  unfold get_user_role. rewrite Het.
  unfold db3. rewrite (users_update_rows _ _ (email t) r); [reflexivity|reflexivity|exact Hnd2|exact R2].
Qed.

Lemma patch_role_then_login_witness :
  let admin := mkAuthUser 1 "admin@x.com" "admin" in
  let res := patch_role_handler mirror_db admin 2 "faculty" in
  exists u' db'', auth_google (snd res) (mkGooglePayload "f@x.com" "F" None "g2") = (Ok u', db'')
                  /\ u'.(role) = "faculty"%string /\ u'.(user_id) = 2%nat
                  /\ u'.(email) = "f@x.com"%string
                  /\ get_user_role db'' "f@x.com" = "faculty"%string.
Proof.
  apply (patch_role_then_login mirror_db (mkAuthUser 1 "admin@x.com" "admin") 2 "faculty"
           (mkUser 2 "f@x.com" "F" None "g2" "faculty")).
  - simpl. repeat constructor; simpl; intuition discriminate.
  - simpl. repeat constructor; simpl; intuition discriminate.
  - simpl. repeat constructor; simpl; intuition discriminate.
  - intros v [<-|[<-|[]]]; simpl; [discriminate|reflexivity].
  - vm_compute. reflexivity.
  - reflexivity.
Defined.

